(** * Hydrogen bond autocorrelation (MDAnalysis.analysis.hbonds.hbond_autocorrel)

    A shallow embedding of [HydrogenBondAutoCorrel]: construction and its
    checks, the window planner [_slice_traj], the survival tracker
    [_single_run] and the aggregator [run].

    The module is Python 2 code (it imports [itertools.izip] and has no
    [from __future__ import division]), so [/] between two ints is floor
    division.

    Conventions of the embedding
    - Python ints are [Z]; lengths and positions inside arrays are [nat].
    - A raised exception is a value of [result]; warnings do not change any
      value the program computes and are left out.
    - A string is its characters together with whether it is the interned
      object of a literal: [==] and [in] look at the characters, [is] at
      the object.
    - Finite floating point values are rationals; every float operation
      rounds its exact result with a rounding function ([rnd32] for the
      [float32] arrays, [rnd64] for Python floats and [float64] arrays) that
      is a parameter of the development.  IEEE special values that the
      program can produce ([nan], [inf]) are constructors of [float].
      Overflow of a finite value and the sign of zero are not modelled.
    - The geometry functions ([distance_array], [calc_bonds], [calc_angles])
      and the trajectory reader are not part of this module; a [Frame]
      carries what they return for the selections at that frame. *)

From Stdlib Require Import String List ZArith QArith Bool Lia Arith Morphisms.
Import ListNotations.

Set Implicit Arguments.

(** ** Exceptions *)

Inductive exn : Type :=
| ValueError (msg : String.string)
| IndexError
| NameError
| ZeroDivisionError.

Inductive result (A : Type) : Type :=
| Ok (a : A)
| Raise (e : exn).

Arguments Ok {A} a.
Arguments Raise {A} e.

Definition bind {A B : Type} (m : result A) (k : A -> result B) : result B :=
  match m with
  | Ok a => k a
  | Raise e => Raise e
  end.

Declare Scope py_scope.
Delimit Scope py_scope with py.
Notation "x <- m ;; k" := (bind m (fun x => k))
  (at level 61, m at next level, right associativity) : py_scope.
Notation "' p <- m ;; k" := (bind m (fun x => match x with p => k end))
  (at level 61, p pattern, m at next level, right associativity) : py_scope.

Definition raises {A : Type} (m : result A) : Prop :=
  exists e, m = Raise e.

(** ** Python and numpy integers *)

(** [a / b] on two Python 2 ints. *)
Definition py_div (a b : Z) : result Z :=
  if (b =? 0)%Z then Raise ZeroDivisionError else Ok (a / b)%Z.

(** [len(numpy.arange(start, stop, step))] for a non-zero [step]:
    [ceil((stop - start) / step)], and 0 when that is negative. *)
Definition arange_len (start stop step : Z) : nat :=
  Z.to_nat (- ((start - stop) / step))%Z.

(** [numpy.arange(start, stop, step)] on ints. *)
Definition arange (start stop step : Z) : result (list Z) :=
  if (step =? 0)%Z then Raise ZeroDivisionError
  else Ok (map (fun k => (start + Z.of_nat k * step)%Z)
               (seq 0 (arange_len start stop step))).

(** [numpy.clip(x, lo, hi)]. *)
Definition clip (x lo hi : Z) : Z := Z.min (Z.max x lo) hi.

(** [int(x)] on a float: truncation towards zero. *)
Definition py_int (x : Q) : Z := Z.quot (Qnum x) (Z.pos (Qden x)).

(** ** Floats *)

Inductive float : Type :=
| NaN
| Inf (negative : bool)
| Fin (q : Q).

Definition Qltb (x y : Q) : bool := negb (Qle_bool y x).

Definition fzero : float := Fin 0.

(** IEEE comparisons: every comparison with [nan] is false. *)
Definition fle (x y : float) : Prop :=
  match x, y with
  | Fin p, Fin q => p <= q
  | Inf true, Fin _ | Inf true, Inf _ => True
  | Fin _, Inf false | Inf false, Inf false => True
  | _, _ => False
  end.

Definition feq (x y : float) : Prop :=
  match x, y with
  | Fin p, Fin q => p == q
  | Inf s, Inf s' => s = s'
  | _, _ => False
  end.

Definition is_nan (x : float) : bool :=
  match x with NaN => true | _ => false end.

Section Rounded.

(** [rnd] maps an exact result to the nearest representable value. *)
Variable rnd : Q -> Q.

Definition of_Z (n : Z) : float := Fin (rnd (inject_Z n)).
Definition of_nat (n : nat) : float := of_Z (Z.of_nat n).

Definition fadd (x y : float) : float :=
  match x, y with
  | NaN, _ | _, NaN => NaN
  | Inf s, Inf s' => if Bool.eqb s s' then Inf s else NaN
  | Inf s, Fin _ | Fin _, Inf s => Inf s
  | Fin p, Fin q => Fin (rnd (p + q))
  end.

Definition fmul (x y : float) : float :=
  match x, y with
  | NaN, _ | _, NaN => NaN
  | Inf s, Inf s' => Inf (xorb s s')
  | Inf s, Fin q | Fin q, Inf s =>
      if Qeq_bool q 0 then NaN else Inf (xorb s (Qltb q 0))
  | Fin p, Fin q => Fin (rnd (p * q))
  end.

(** numpy does not raise on a float division by zero: [0/0] is [nan] and
    [x/0] is an infinity (a RuntimeWarning is issued). *)
Definition fdiv (x y : float) : float :=
  match x, y with
  | NaN, _ | _, NaN => NaN
  | Inf _, Inf _ => NaN
  | Inf s, Fin q => Inf (xorb s (Qltb q 0))
  | Fin _, Inf _ => Fin 0
  | Fin p, Fin q =>
      if Qeq_bool q 0
      then (if Qeq_bool p 0 then NaN else Inf (Qltb p 0))
      else Fin (rnd (p / q))
  end.

End Rounded.

(** What the proofs need of a rounding function: it is monotone and the
    small integers 0 and 1 are representable. *)
Record Rounding (rnd : Q -> Q) : Prop := {
  rnd_mono : forall p q, p <= q -> rnd p <= rnd q;
  rnd_zero : rnd 0 == 0;
  rnd_one : rnd 1 == 1
}.

(** ** numpy arrays as lists *)

(** [arr[m]] for a boolean array [m] of the length of [arr]. *)
Fixpoint mask {A : Type} (m : list bool) (arr : list A) : list A :=
  match m, arr with
  | b :: m', x :: arr' => if b then x :: mask m' arr' else mask m' arr'
  | _, _ => []
  end.

(** [m.sum()] for a boolean array. *)
Fixpoint bsum (m : list bool) : nat :=
  match m with
  | [] => 0
  | b :: m' => (if b then 1 else 0) + bsum m'
  end.

(** [arr[i] = v]; an index past the end raises. *)
Fixpoint setitem {A : Type} (arr : list A) (i : nat) (v : A) : result (list A) :=
  match arr, i with
  | [], _ => Raise IndexError
  | _ :: arr', O => Ok (v :: arr')
  | x :: arr', S i' =>
      match setitem arr' i' v with
      | Ok r => Ok (x :: r)
      | Raise e => Raise e
      end
  end.

Fixpoint map2 {A B C : Type} (f : A -> B -> C) (xs : list A) (ys : list B) : list C :=
  match xs, ys with
  | x :: xs', y :: ys' => f x y :: map2 f xs' ys'
  | _, _ => []
  end.

(** An index into an axis of length [n]: negative indices count from the
    end, anything outside [-n, n) raises. *)
Definition norm_index (n : nat) (i : Z) : result nat :=
  if ((0 <=? i) && (i <? Z.of_nat n))%Z then Ok (Z.to_nat i)
  else if ((- Z.of_nat n <=? i) && (i <? 0))%Z then Ok (Z.to_nat (i + Z.of_nat n))
  else Raise IndexError.

(** ** Data model *)

(** What the geometry functions return at one frame, for hydrogen [i] and
    acceptor [j] of the selections (and donor [i] for the angle).  The first
    argument tells whether the periodic box is passed ([pbc]).
    [distance_array] is entry [(i, j)] of the full distance matrix;
    [calc_bonds] and [calc_angles] are evaluated on the aligned positions
    [h.positions[hidx]], [a.positions[aidx]], [d.positions[hidx]]. *)
Record Frame : Type := {
  distance_array : bool -> nat -> nat -> Q;
  calc_bonds : bool -> nat -> nat -> Q;
  calc_angles : bool -> nat -> nat -> Q
}.

(** [sliceable] is false for a reader whose [__getitem__] raises. *)
Record Universe : Type := {
  sliceable : bool;
  trajectory : list Frame;
  dt : Q
}.

(** A Python string object.  [x == 'lit'] compares the characters;
    [x is 'lit'] asks whether [x] is the very object of the literal in the
    module's code.  CPython interns such literals, so the identity test holds
    exactly for an interned string with the same characters; a string with
    the same characters that was built at run time (read from a file,
    concatenated, decoded) is another object. *)
Record PyStr : Type := {
  chars : String.string;
  interned : bool
}.

(** The object of a string literal in the program text. *)
Definition literal (s : String.string) : PyStr :=
  {| chars := s; interned := true |}.

(** A string with the characters [s] that was computed at run time. *)
Definition computed (s : String.string) : PyStr :=
  {| chars := s; interned := false |}.

(** [x is 'lit']. *)
Definition is_literal (x : PyStr) (lit : String.string) : bool :=
  interned x && String.eqb (chars x) lit.

(** An atom selection; only its length is looked at by this module. *)
Definition AtomGroup : Type := list nat.

(** The [solution] dict. [fit], [tau] and [estimate] are filled by [solve]. *)
Record Solution : Type := {
  results : option (list float);
  time : option (list float);
  fit : option (list Q);
  tau : option Q;
  estimate : option (list float)
}.

Record HydrogenBondAutoCorrel : Type := {
  u : Universe;
  h : AtomGroup;
  a : AtomGroup;
  d : AtomGroup;
  exclusions : option (list Z * list Z);
  bond_type : PyStr;
  a_crit : Q;
  d_crit : Q;
  pbc : bool;
  sample_time : Q;
  nruns : Z;
  nsamples : Z;
  _starts : list Z;
  _stops : list Z;
  _skip : Z;
  time_cut : option Q;
  solution : Solution
}.

Definition set_solution (self : HydrogenBondAutoCorrel) (s : Solution) :=
  {| u := u self; h := h self; a := a self; d := d self;
     exclusions := exclusions self; bond_type := bond_type self;
     a_crit := a_crit self; d_crit := d_crit self; pbc := pbc self;
     sample_time := sample_time self; nruns := nruns self;
     nsamples := nsamples self; _starts := _starts self;
     _stops := _stops self; _skip := _skip self;
     time_cut := time_cut self; solution := s |}.

Definition set_time_cut (self : HydrogenBondAutoCorrel) (tc : option Q) :=
  {| u := u self; h := h self; a := a self; d := d self;
     exclusions := exclusions self; bond_type := bond_type self;
     a_crit := a_crit self; d_crit := d_crit self; pbc := pbc self;
     sample_time := sample_time self; nruns := nruns self;
     nsamples := nsamples self; _starts := _starts self;
     _stops := _stops self; _skip := _skip self;
     time_cut := tc; solution := solution self |}.

(** Truth value of [time_cut]: [None] and a zero are false. *)
Definition truthy (tc : option Q) : bool :=
  match tc with
  | None => false
  | Some q => negb (Qeq_bool q 0)
  end.

(** [x is None] negated. *)
Definition is_not_None {A : Type} (x : option A) : bool :=
  match x with Some _ => true | None => false end.

Local Open Scope py_scope.

Section Analysis.

(** Rounding to [float32] and to [float64], and [numpy.deg2rad]. *)
Variable rnd32 : Q -> Q.
Variable rnd64 : Q -> Q.
Variable deg2rad : Q -> Q.

(** *** Window planner *)

(** [_slice_traj]: the start and stop frames of the passes and the stride.
    The two RuntimeWarnings about the number of frames are not values. *)
Definition _slice_traj (universe : Universe) (nruns nsamples : Z) (sample_time : Q)
  : result (list Z * list Z * Z) :=
  let dt := dt universe in
  req_frames <- (if Qeq_bool dt 0 then Raise ZeroDivisionError
                 else Ok (py_int (rnd64 (sample_time / dt)))) ;;
  let numframes := Z.of_nat (length (trajectory universe)) in
  let numruns := if (numframes <? nruns)%Z then numframes else nruns in
  step <- py_div numframes numruns ;;
  starts <- arange 0 numframes step ;;
  let stops := map (fun s => clip (s + req_frames) 0 numframes) starts in
  skip <- py_div req_frames nsamples ;;
  let skip := if (skip =? 0)%Z then 1%Z else skip in
  Ok (starts, stops, skip).

(** *** Construction *)

(** The length test of [__init__], with Python's precedence:
    [not (len(h) == len(a)) and (len(a) == len(d))] is
    [(not (len(h) == len(a))) and (len(a) == len(d))]. *)
Definition length_check_fails (hydrogens acceptors donors : AtomGroup) : bool :=
  negb (length hydrogens =? length acceptors)%nat
  && (length acceptors =? length donors)%nat.

Definition __init__ (universe : Universe)
    (hydrogens acceptors donors : AtomGroup) (bond_type : PyStr)
    (exclusions : option (list Z * list Z))
    (angle_crit dist_crit : Q) (sample_time : Q) (time_cut : option Q)
    (nruns nsamples : Z) (pbc : bool) : result HydrogenBondAutoCorrel :=
  if negb (sliceable universe && negb (length (trajectory universe) =? 0)%nat)
  then Raise (ValueError "Trajectory must support slicing"%string)
  else if length_check_fails hydrogens acceptors donors
  then Raise (ValueError "All selections must have the same length"%string)
  else if match exclusions with
          | Some (e0, e1) => negb (length e0 =? length e1)%nat
          | None => false
          end
  then Raise (ValueError "'exclusion' must be two arrays of identical length"%string)
  else if negb (String.eqb (chars bond_type) "continuous"%string
                || String.eqb (chars bond_type) "intermittent"%string)
  then Raise (ValueError "bond_type must be either 'continuous' or 'intermittent'"%string)
  else
    ' (starts, stops, skip) <- _slice_traj universe nruns nsamples sample_time ;;
    Ok {| u := universe; h := hydrogens; a := acceptors; d := donors;
          exclusions := exclusions; bond_type := bond_type;
          a_crit := deg2rad angle_crit; d_crit := dist_crit; pbc := pbc;
          sample_time := sample_time; nruns := nruns; nsamples := nsamples;
          _starts := starts; _stops := stops; _skip := skip;
          time_cut := time_cut;
          solution := {| results := None; time := None; fit := None;
                         tau := None; estimate := None |} |}.

(** *** Survival tracker *)

Section SingleRun.

Variable self : HydrogenBondAutoCorrel.

(** [self.u.trajectory[start]].  The start frames come out of
    [numpy.arange(0, numframes, ...)] and are never negative. *)
Definition seek (start : Z) : result Frame :=
  if (start <? 0)%Z then Raise IndexError
  else match nth_error (trajectory (u self)) (Z.to_nat start) with
       | Some ts => Ok ts
       | None => Raise IndexError
       end.

(** The frames of [self.u.trajectory[start:stop:self._skip]], given the
    frame numbers [numpy.arange(start, stop, self._skip)]; as for any
    Python slice, numbers outside the trajectory yield nothing. *)
Definition traj_slice (idx : list Z) : list Frame :=
  flat_map (fun k => if (k <? 0)%Z then []
                     else match nth_error (trajectory (u self)) (Z.to_nat k) with
                          | Some ts => [ts]
                          | None => []
                          end) idx.

(** The pairs [(Hidx[k], Aidx[k])] addressed by [d[self.exclusions]];
    [__init__] has checked that both arrays have one length. *)
Fixpoint fancy_index (nh na : nat) (e0 e1 : list Z) : result (list (nat * nat)) :=
  match e0, e1 with
  | [], [] => Ok []
  | i :: e0', j :: e1' =>
      i' <- norm_index nh i ;;
      j' <- norm_index na j ;;
      rest <- fancy_index nh na e0' e1' ;;
      Ok ((i', j') :: rest)
  | _, _ => Raise IndexError
  end.

Definition pair_eqb (p q : nat * nat) : bool :=
  (fst p =? fst q)%nat && (snd p =? snd q)%nat.

(** The positions of a [len(h)] by [len(a)] matrix, row by row: the
    order in which [numpy.where] reports them. *)
Definition all_pairs (nh na : nat) : list (nat * nat) :=
  flat_map (fun i => map (fun j => (i, j)) (seq 0 na)) (seq 0 nh).

(** The distance matrix after [d[self.exclusions] = self.d_crit + 1.0]. *)
Definition excluded_distance (ts : Frame) (excl : list (nat * nat)) (p : nat * nat) : Q :=
  if existsb (pair_eqb p) excl then rnd64 (d_crit self + 1)
  else distance_array ts (pbc self) (fst p) (snd p).

(** The bonds at t=0: [hidx, aidx] as one list of pairs (the two arrays
    are always indexed by the same mask). *)
Definition seed (ts : Frame) : result (list (nat * nat)) :=
  let nh := length (h self) in
  let na := length (a self) in
  excl <- match exclusions self with
          | Some (e0, e1) => fancy_index nh na e0 e1
          | None => Ok []
          end ;;
  let close := filter (fun p => Qltb (excluded_distance ts excl p) (d_crit self))
                      (all_pairs nh na) in
  (* self.d.positions[hidx] *)
  if forallb (fun p => (fst p <? length (d self))%nat) close
  then Ok (filter (fun p => Qltb (a_crit self)
                                 (calc_angles ts (pbc self) (fst p) (snd p))) close)
  else Raise IndexError.

(** [winners = (d < self.d_crit) & (a > self.a_crit)] on the tracked pairs. *)
Definition winners_of (ts : Frame) (cand : list (nat * nat)) : list bool :=
  map (fun p => Qltb (calc_bonds ts (pbc self) (fst p) (snd p)) (d_crit self)
                && Qltb (a_crit self) (calc_angles ts (pbc self) (fst p) (snd p)))
      cand.

(** [count[~ winners] += self._skip * self.u.trajectory.dt] followed by
    [count[winners] = 0]. *)
Definition update_count (winners : list bool) (count : list Q) : list Q :=
  map2 (fun (w : bool) c =>
          if w then 0
          else rnd64 (c + rnd64 (inject_Z (_skip self) * dt (u self))))
       winners count.

(** The pruning at the end of the loop body.  [count] is [None] when the
    array was not created.  The source compares [self.bond_type] with the
    two literals by [is], where [__init__] has accepted the string by [==]:
    for a string that is equal to a literal without being that object,
    neither branch is taken and nothing is pruned. *)
Definition prune (winners : list bool) (cand : list (nat * nat))
    (count : option (list Q)) : result (list (nat * nat) * option (list Q)) :=
  if is_literal (bond_type self) "continuous" then
    Ok (mask winners cand, count)
  else if is_literal (bond_type self) "intermittent" then
    match time_cut self with
    | Some tc =>
        if negb (Qeq_bool tc 0) then
          match count with
          | Some c =>
              let c' := update_count winners c in
              let keep := map (fun x => Qltb x tc) c' in
              Ok (mask keep cand, Some (mask keep c'))
          | None => Raise NameError
          end
        else Ok (cand, count)
    | None => Ok (cand, count)
    end
  else Ok (cand, count).

(** The [for i, ts in enumerate(...)] loop.  Besides [results] it returns
    the other locals it leaves behind: the tracked pairs, the counters
    and the number of frames it went through. *)
Fixpoint loop (frames : list Frame) (i : nat) (cand : list (nat * nat))
    (count : option (list Q)) (results : list float)
  : result (list float * list (nat * nat) * option (list Q) * nat) :=
  match frames with
  | [] => Ok (results, cand, count, i)
  | ts :: rest =>
      let winners := winners_of ts cand in
      results' <- setitem results i (of_nat rnd32 (bsum winners)) ;;
      ' (cand', count') <- prune winners cand count ;;
      if (length cand' =? 0)%nat
      then Ok (results', cand', count', S i)
      else loop rest (S i) cand' count' results'
  end.

(** [_single_run] up to the end of its loop: [nbonds] and the locals. *)
Definition tracked_run (start stop : Z)
  : result (nat * (list float * list (nat * nat) * option (list Q) * nat)) :=
  ts0 <- seek start ;;
  cand <- seed ts0 ;;
  let nbonds := length cand in
  idx <- arange start stop (_skip self) ;;
  let results := repeat fzero (length idx) in
  let count := if truthy (time_cut self) then Some (repeat 0 nbonds) else None in
  st <- loop (traj_slice idx) 0 cand count results ;;
  Ok (nbonds, st).

Definition _single_run (start stop : Z) : result (list float) :=
  ' (nbonds, (results, _, _, _)) <- tracked_run start stop ;;
  Ok (map (fun x => fdiv rnd32 x (of_nat rnd32 nbonds)) results).


(** The value written at every index by [results /= nbonds]. *)
Definition normalise (nbonds : nat) (x : float) : float :=
  fdiv rnd32 x (of_nat rnd32 nbonds).

(** The counts the loop records in continuous mode, frame by frame, up
    to and including the frame that empties the tracked set. *)
Fixpoint continuous_counts (frames : list Frame) (cand : list (nat * nat)) : list nat :=
  match frames with
  | [] => []
  | ts :: rest =>
      let winners := winners_of ts cand in
      bsum winners ::
        (if (length (mask winners cand) =? 0)%nat then []
         else continuous_counts rest (mask winners cand))
  end.

(** The unnormalised entry at index [j] of a continuous pass with the
    counts [cs]. *)
Definition continuous_raw (cs : list nat) (j : nat) : Q :=
  match nth_error cs j with
  | Some c => rnd32 (inject_Z (Z.of_nat c))
  | None => 0
  end.

(** The counters as [_single_run] creates them. *)
Definition initial_count (nbonds : nat) : option (list Q) :=
  if truthy (time_cut self) then Some (repeat 0 nbonds) else None.

(** When the forgiveness branch can be taken, the counters exist and are
    aligned with the tracked pairs. *)
Definition counters_aligned (cand : list (nat * nat)) (count : option (list Q)) : Prop :=
  is_literal (bond_type self) "continuous" = false ->
  truthy (time_cut self) = true ->
  exists c, count = Some c /\ length c = length cand.

(** *** Run aggregator *)

(** [m[:len(r)] += r]. *)
Fixpoint add_prefix (m r : list float) : list float :=
  match m, r with
  | x :: m', y :: r' => fadd rnd32 x y :: add_prefix m' r'
  | _, _ => m
  end.

(** The loop of [run] over the windows; a window longer than the first
    one cannot be added to [master_results]. *)
Fixpoint run_loop (windows : list (Z * Z)) (master counter : list float)
  : result (list float * list float) :=
  match windows with
  | [] => Ok (master, counter)
  | (start, stop) :: rest =>
      res <- _single_run start stop ;;
      if (length res <=? length master)%nat
      then run_loop rest (add_prefix master res)
                    (add_prefix counter (repeat (Fin 1) (length res)))
      else Raise (ValueError "operands could not be broadcast together"%string)
  end.

Definition getitem (arr : list Z) (i : nat) : result Z :=
  match nth_error arr i with
  | Some x => Ok x
  | None => Raise IndexError
  end.

(** [run].  The time axis is a [float32] array times the Python float
    [dt] times the int [_skip]: numpy keeps the dtype of the array, so both
    scalars enter the products as [float32] values. *)
Definition run (force : bool) : result HydrogenBondAutoCorrel :=
  if is_not_None (results (solution self)) && negb force then Ok self
  else
    start0 <- getitem (_starts self) 0 ;;
    stop0 <- getitem (_stops self) 0 ;;
    idx <- arange start0 stop0 (_skip self) ;;
    let master := repeat fzero (length idx) in
    let counter := repeat fzero (length idx) in
    ' (master, counter) <- run_loop (combine (_starts self) (_stops self))
                                    master counter ;;
    let master := map2 (fdiv rnd32) master counter in
    let axis := map (fun i => fmul rnd32 (fmul rnd32 (of_nat rnd32 i)
                                                      (Fin (rnd32 (dt (u self)))))
                                   (of_Z rnd32 (_skip self)))
                    (seq 0 (length master)) in
    Ok (set_solution self
          {| results := Some master; time := Some axis;
             fit := fit (solution self); tau := tau (solution self);
             estimate := estimate (solution self) |}).

End SingleRun.

End Analysis.

Definition set_bond_type (self : HydrogenBondAutoCorrel) (bt : PyStr) :=
  {| u := u self; h := h self; a := a self; d := d self;
     exclusions := exclusions self; bond_type := bt;
     a_crit := a_crit self; d_crit := d_crit self; pbc := pbc self;
     sample_time := sample_time self; nruns := nruns self;
     nsamples := nsamples self; _starts := _starts self;
     _stops := _stops self; _skip := _skip self;
     time_cut := time_cut self; solution := solution self |}.

(** The same analysis under the two lifetime definitions. *)
Definition as_continuous (self : HydrogenBondAutoCorrel) : HydrogenBondAutoCorrel :=
  set_bond_type self (literal "continuous").

Definition as_intermittent (self : HydrogenBondAutoCorrel) (tc : option Q)
  : HydrogenBondAutoCorrel :=
  set_bond_type (set_time_cut self tc) (literal "intermittent").

(** The rounded number of bonds at t=0, the divisor of [results /= nbonds]. *)
Definition divisor (rnd : Q -> Q) (n0 : nat) : Q := rnd (inject_Z (Z.of_nat n0)).

(** [l1] is [l2] with some entries removed, order kept: what repeated
    boolean indexing does to an array. *)
Inductive subseq {A : Type} : list A -> list A -> Prop :=
| subseq_nil : subseq [] []
| subseq_keep x l1 l2 : subseq l1 l2 -> subseq (x :: l1) (x :: l2)
| subseq_drop x l1 l2 : subseq l1 l2 -> subseq l1 (x :: l2).

(** A sequence of counts that never goes up and starts at most at [bound]. *)
Fixpoint descending (bound : nat) (l : list nat) : Prop :=
  match l with
  | [] => True
  | x :: l' => (x <= bound)%nat /\ descending x l'
  end.

(** ** Persistence *)

(** [save_results]: the file name and the two arrays handed to
    [numpy.savez(filename, time=..., results=...)]; writing the file itself
    is numpy's. *)
Definition save_results (self : HydrogenBondAutoCorrel) (filename : String.string)
  : result (String.string * option (list float) * list float) :=
  match results (solution self) with
  | Some r => Ok (filename, time (solution self), r)
  | None =>
      Raise (ValueError "Results have not been generated, use the run method first"%string)
  end.

(** ** Notions used to state what a pass computes *)

(** The pair [p] satisfies both criteria at the frame [ts]: the entry of
    [winners] for [p]. *)
Definition is_winner (self : HydrogenBondAutoCorrel) (ts : Frame) (p : nat * nat) : bool :=
  Qltb (calc_bonds ts (pbc self) (fst p) (snd p)) (d_crit self)
  && Qltb (a_crit self) (calc_angles ts (pbc self) (fst p) (snd p)).



(** An index numpy accepts on an axis of length [n]. *)
Definition index_in_range (n : nat) (i : Z) : Prop :=
  (- Z.of_nat n <= i < Z.of_nat n)%Z.

(** The exclusion arrays address entries of the distance matrix. *)
Definition exclusions_in_range (self : HydrogenBondAutoCorrel) : Prop :=
  match exclusions self with
  | None => True
  | Some (e0, e1) =>
      length e0 = length e1 /\
      Forall (index_in_range (length (h self))) e0 /\
      Forall (index_in_range (length (a self))) e1
  end.

Definition set_exclusions (self : HydrogenBondAutoCorrel)
    (e : option (list Z * list Z)) :=
  {| u := u self; h := h self; a := a self; d := d self;
     exclusions := e; bond_type := bond_type self;
     a_crit := a_crit self; d_crit := d_crit self; pbc := pbc self;
     sample_time := sample_time self; nruns := nruns self;
     nsamples := nsamples self; _starts := _starts self;
     _stops := _stops self; _skip := _skip self;
     time_cut := time_cut self; solution := solution self |}.

(** ** Concrete trajectories

    Small inputs on which the definitions are evaluated.  Float arithmetic is
    exact on them (small integers and halves), so the rounding function is
    the identity up to the representation of the fraction. *)

Definition exact_rounding (q : Q) : Q := Qred q.

(** Degrees to radians with pi cut to 3.14159. *)
Definition deg2rad_approx (x : Q) : Q := Qred (x * (314159 # 18000000)).

(** A frame in which exactly the pairs of [bonded] are 2.0 apart (all other
    pairs 5.0) and every donor-hydrogen-acceptor angle is 3.0 rad. *)
Definition frame_with (bonded : list (nat * nat)) : Frame :=
  let dist := fun (_ : bool) (i j : nat) =>
                if existsb (pair_eqb (i, j)) bonded then 2 else 5 in
  {| distance_array := dist; calc_bonds := dist; calc_angles := fun _ _ _ => 3 |}.

Definition universe_of (frames : list (list (nat * nat))) : Universe :=
  {| sliceable := true; trajectory := map frame_with frames; dt := 1 |}.

(** Two hydrogens, acceptors and donors; the criteria of the defaults
    (3.0 Angstrom, 130 degrees); one pass over the whole trajectory at
    stride 1. *)
Definition analysis_of (frames : list (list (nat * nat))) (bt : String.string)
    (tc : option Q) : result HydrogenBondAutoCorrel :=
  let len := inject_Z (Z.of_nat (length frames)) in
  __init__ exact_rounding deg2rad_approx (universe_of frames)
           [0; 1]%nat [2; 3]%nat [4; 5]%nat (literal bt) None 130 3 len tc
           1 (Z.of_nat (length frames)) true.

(** The object [analysis_of] returns when it does not raise. *)
Definition built (frames : list (list (nat * nat))) (bt : String.string)
    (tc : option Q) : HydrogenBondAutoCorrel :=
  {| u := universe_of frames; h := [0; 1]%nat; a := [2; 3]%nat; d := [4; 5]%nat;
     exclusions := None; bond_type := literal bt;
     a_crit := deg2rad_approx 130; d_crit := 3; pbc := true;
     sample_time := inject_Z (Z.of_nat (length frames));
     nruns := 1; nsamples := Z.of_nat (length frames);
     _starts := [0%Z]; _stops := [Z.of_nat (length frames)]; _skip := 1;
     time_cut := tc;
     solution := {| results := None; time := None; fit := None;
                    tau := None; estimate := None |} |}.

(** Both pairs bonded at frame 0, one at frame 1, none at frame 2, one
    again at frame 3. *)
Definition decaying : list (list (nat * nat)) :=
  [[(0, 0); (1, 1)]; [(0, 0)]; []; [(0, 0)]]%nat.

(** No pair bonded at frame 0. *)
Definition unbonded : list (list (nat * nat)) :=
  [[]; [(0, 0)]; []]%nat.

(** Ten frames without any bond, for the window planner. *)
Definition ten_frames : Universe := universe_of (repeat [] 10).

(** * Properties *)

(** ** Comparisons and rounding *)

Lemma Qltb_lt (x y : Q) : Qltb x y = true <-> x < y.
Proof.
  unfold Qltb. rewrite negb_true_iff. split; intros H.
  - apply Qnot_le_lt. intros Hle. apply Qle_bool_iff in Hle. congruence.
  - destruct (Qle_bool y x) eqn:E; trivial.
    apply Qle_bool_iff in E. apply Qle_not_lt in E. contradiction.
Qed.

Lemma Qltb_ge (x y : Q) : Qltb x y = false <-> y <= x.
Proof.
  unfold Qltb. rewrite negb_false_iff. apply Qle_bool_iff.
Qed.

Lemma Qeq_bool_false (x y : Q) : ~ x == y -> Qeq_bool x y = false.
Proof.
  intros H. destruct (Qeq_bool x y) eqn:E; trivial.
  apply Qeq_bool_iff in E. contradiction.
Qed.

Section RoundingFacts.

Variable rnd : Q -> Q.
Hypothesis R : Rounding rnd.

Lemma rnd_proper (p q : Q) : p == q -> rnd p == rnd q.
Proof.
  intros E. apply Qle_antisym; apply (rnd_mono R); rewrite E; apply Qle_refl.
Qed.

Lemma rnd_nonneg (q : Q) : 0 <= q -> 0 <= rnd q.
Proof.
  intros H. rewrite <- (rnd_zero R). now apply (rnd_mono R).
Qed.

Lemma rnd_le_one (q : Q) : q <= 1 -> rnd q <= 1.
Proof.
  intros H. rewrite <- (rnd_one R). now apply (rnd_mono R).
Qed.

Lemma rnd_nat_mono (m n : nat) :
  (m <= n)%nat -> rnd (inject_Z (Z.of_nat m)) <= rnd (inject_Z (Z.of_nat n)).
Proof.
  intros H. apply (rnd_mono R). rewrite <- Zle_Qle. lia.
Qed.

Lemma rnd_nat_pos (n : nat) : (0 < n)%nat -> 1 <= rnd (inject_Z (Z.of_nat n)).
Proof.
  intros H. rewrite <- (rnd_one R). apply (rnd_mono R).
  change 1 with (inject_Z 1). rewrite <- Zle_Qle. lia.
Qed.

Lemma rnd_nat_nonneg (n : nat) : 0 <= rnd (inject_Z (Z.of_nat n)).
Proof.
  apply rnd_nonneg. change 0 with (inject_Z 0). rewrite <- Zle_Qle. lia.
Qed.

(** Dividing by a positive count and rounding keeps the order. *)
Lemma rnd_div_mono (p q N : Q) : 0 < N -> p <= q -> rnd (p / N) <= rnd (q / N).
Proof.
  intros HN H. apply (rnd_mono R). unfold Qdiv.
  apply Qmult_le_compat_r; trivial.
  apply Qlt_le_weak, Qinv_lt_0_compat, HN.
Qed.

Lemma fdiv_Fin (p N : Q) : 0 < N -> fdiv rnd (Fin p) (Fin N) = Fin (rnd (p / N)).
Proof.
  intros HN. simpl. rewrite Qeq_bool_false; trivial.
  intros E. rewrite E in HN. now apply Qlt_irrefl in HN.
Qed.

Lemma fdiv_zero_zero (p N : Q) : p == 0 -> N == 0 -> fdiv rnd (Fin p) (Fin N) = NaN.
Proof.
  intros Hp HN. simpl.
  apply Qeq_bool_iff in Hp, HN. now rewrite Hp, HN.
Qed.

End RoundingFacts.

(** ** Arrays *)

Lemma setitem_Ok {A : Type} (arr : list A) (i : nat) (v : A) (r : list A) :
  setitem arr i v = Ok r ->
  (i < length arr)%nat /\ length r = length arr /\ nth_error r i = Some v /\
  forall j, j <> i -> nth_error r j = nth_error arr j.
Proof.
  revert i r. induction arr as [|x arr IH]; intros [|i] r H; simpl in H; try discriminate.
  - injection H as <-. simpl. repeat split; try lia.
    intros [|j] Hj; [contradiction | reflexivity].
  - destruct (setitem arr i v) as [r'|] eqn:E; try discriminate.
    injection H as <-. destruct (IH _ _ E) as (H1 & H2 & H3 & H4).
    simpl. repeat split; try lia; trivial.
    intros [|j] Hj; simpl; trivial. apply H4. lia.
Qed.

Lemma setitem_lt {A : Type} (arr : list A) (i : nat) (v : A) :
  (i < length arr)%nat -> exists r, setitem arr i v = Ok r.
Proof.
  revert i. induction arr as [|x arr IH]; intros [|i] H; simpl in *; try lia.
  - eauto.
  - destruct (IH i) as [r ->]; [lia | eauto].
Qed.

Lemma mask_subseq {A : Type} (m : list bool) (arr : list A) :
  length m = length arr -> subseq (mask m arr) arr.
Proof.
  revert arr. induction m as [|b m IH]; intros [|x arr] H; simpl in *; try discriminate.
  - constructor.
  - injection H as H. destruct b; constructor; auto.
Qed.

Lemma subseq_refl {A : Type} (l : list A) : subseq l l.
Proof. induction l; constructor; trivial. Qed.

Lemma subseq_trans {A : Type} (l1 l2 l3 : list A) :
  subseq l1 l2 -> subseq l2 l3 -> subseq l1 l3.
Proof.
  intros H12 H23. revert l1 H12.
  induction H23 as [|x l2 l3 H IH|x l2 l3 H IH]; intros l1 H12.
  - trivial.
  - inversion H12; subst; constructor; auto.
  - constructor. auto.
Qed.


Lemma subseq_In {A : Type} (l1 l2 : list A) (x : A) :
  subseq l1 l2 -> In x l1 -> In x l2.
Proof.
  induction 1; simpl; intros Hin; trivial.
  - destruct Hin; auto.
  - auto.
Qed.

Lemma bsum_le_length (m : list bool) : (bsum m <= length m)%nat.
Proof. induction m as [|[] m IH]; simpl; lia. Qed.

Lemma bsum_mask_length {A : Type} (m : list bool) (arr : list A) :
  length m = length arr -> length (mask m arr) = bsum m.
Proof.
  revert arr. induction m as [|b m IH]; intros [|x arr] H; simpl in *; try discriminate.
  - reflexivity.
  - injection H as H. destruct b; simpl; auto.
Qed.

Lemma bsum_map_subseq {A : Type} (f : A -> bool) (l1 l2 : list A) :
  subseq l1 l2 -> (bsum (map f l1) <= bsum (map f l2))%nat.
Proof. induction 1; simpl; try destruct (f x); lia. Qed.

Lemma bsum_all_true (m : list bool) :
  Forall (fun b => b = true) m -> bsum m = length m.
Proof. induction 1 as [|b m Hb _ IH]; simpl; subst; auto. Qed.

Lemma map2_length {A B C : Type} (f : A -> B -> C) (xs : list A) (ys : list B) :
  length xs = length ys -> length (map2 f xs ys) = length xs.
Proof.
  revert ys. induction xs as [|x xs IH]; intros [|y ys] H; simpl in *; try discriminate; auto.
Qed.

Lemma map2_nth_error {A B C : Type} (f : A -> B -> C) (xs : list A) (ys : list B)
    (k : nat) (x : A) (y : B) :
  nth_error xs k = Some x -> nth_error ys k = Some y ->
  nth_error (map2 f xs ys) k = Some (f x y).
Proof.
  revert xs ys. induction k as [|k IH]; intros [|x' xs] [|y' ys] Hx Hy;
    simpl in *; try discriminate.
  - congruence.
  - auto.
Qed.

(** Masking two aligned arrays is filtering the array of their pairs. *)
Lemma mask_combine {A B : Type} (f : B -> bool) (xs : list A) (ys : list B) :
  length xs = length ys ->
  combine (mask (map f ys) xs) (mask (map f ys) ys)
  = filter (fun p => f (snd p)) (combine xs ys).
Proof.
  revert ys. induction xs as [|x xs IH]; intros [|y ys] H; simpl in *; try discriminate.
  - reflexivity.
  - injection H as H. destruct (f y); simpl; rewrite IH; trivial.
Qed.

Lemma arange_ok (start stop step : Z) :
  step <> 0%Z ->
  exists idx, arange start stop step = Ok idx /\ length idx = arange_len start stop step.
Proof.
  intros H. unfold arange. apply Z.eqb_neq in H. rewrite H.
  eexists. split; [reflexivity|]. now rewrite length_map, length_seq.
Qed.

Lemma arange_inv (start stop step : Z) (idx : list Z) :
  arange start stop step = Ok idx ->
  step <> 0%Z /\ length idx = arange_len start stop step /\
  (forall x, nth_error idx 0 = Some x -> x = start).
Proof.
  unfold arange. destruct (step =? 0)%Z eqn:E; [discriminate|].
  intros H. injection H as <-. apply Z.eqb_neq in E.
  split; trivial. split; [now rewrite length_map, length_seq|].
  intros x. destruct (arange_len start stop step); simpl; [discriminate|].
  intros Hx. injection Hx as <-. lia.
Qed.

(** ** The loop of [_single_run] *)

Section Tracker.

Variable rnd32 : Q -> Q.
Variable rnd64 : Q -> Q.
Variable self : HydrogenBondAutoCorrel.

Lemma winners_of_length (ts : Frame) (cand : list (nat * nat)) :
  length (winners_of self ts cand) = length cand.
Proof. unfold winners_of. apply length_map. Qed.

Lemma update_count_length (winners : list bool) (c : list Q) :
  length winners = length c -> length (update_count rnd64 self winners c) = length c.
Proof.
  intros H. unfold update_count. rewrite map2_length; trivial.
Qed.

Lemma prune_ok (winners : list bool) (cand : list (nat * nat)) (count : option (list Q)) :
  length winners = length cand ->
  counters_aligned self cand count ->
  exists cand' count',
    prune rnd64 self winners cand count = Ok (cand', count') /\
    subseq cand' cand /\ counters_aligned self cand' count'.
Proof.
  intros Hw Hinv. unfold prune, counters_aligned in *.
  destruct (is_literal (bond_type self) "continuous") eqn:Ec.
  - exists (mask winners cand), count. split; [reflexivity|]. split.
    + now apply mask_subseq.
    + intros Hc. discriminate Hc.
  - destruct (is_literal (bond_type self) "intermittent") eqn:Ei.
    + destruct (time_cut self) as [tc|] eqn:Etc; simpl in Hinv.
      * destruct (Qeq_bool tc 0) eqn:E0; simpl in *.
        -- exists cand, count. split; [reflexivity|]. split; [apply subseq_refl|].
           intros _ Ht. simpl in Ht. try rewrite E0 in Ht. discriminate Ht.
        -- destruct (Hinv eq_refl eq_refl) as (c & -> & Hc).
           assert (Hu : length (update_count rnd64 self winners c) = length cand).
           { rewrite update_count_length; congruence. }
           eexists _, _. split; [reflexivity|]. split.
           ++ apply mask_subseq. now rewrite length_map.
           ++ intros _ _. eexists. split; [reflexivity|].
              rewrite !bsum_mask_length; trivial; now rewrite length_map.
      * exists cand, count. split; [reflexivity|]. split; [apply subseq_refl|].
        intros _ Ht. simpl in Ht. try rewrite E0 in Ht. discriminate Ht.
    + exists cand, count. split; [reflexivity|]. split; [apply subseq_refl|]. intros _ Ht.
      destruct (Hinv eq_refl Ht) as (c & -> & Hc). eauto.
Qed.

(** The loop never raises when [results] has room for every frame. *)
Lemma loop_total (frames : list Frame) :
  forall i cand count res,
    counters_aligned self cand count ->
    (i + length frames <= length res)%nat ->
    exists res' cand' count' n,
      loop rnd32 rnd64 self frames i cand count res = Ok (res', cand', count', n).
Proof.
  induction frames as [|ts rest IH]; intros i cand count res Hinv Hlen; simpl in *.
  - eauto 6.
  - destruct (setitem_lt res (of_nat rnd32 (bsum (winners_of self ts cand))) (i := i))
      as [r1 Hr1]; [lia|].
    rewrite Hr1. simpl.
    destruct (prune_ok (winners_of self ts cand) (winners_of_length ts cand) Hinv)
      as (cand' & count' & Hp & _ & Hinv').
    rewrite Hp. simpl.
    destruct (length cand' =? 0)%nat; [eauto 6|].
    apply IH; trivial.
    apply setitem_Ok in Hr1. lia.
Qed.

(** The loop writes [results] only at the frames it went through. *)
Lemma loop_frame (frames : list Frame) :
  forall i cand count res res' cand' count' n,
    loop rnd32 rnd64 self frames i cand count res = Ok (res', cand', count', n) ->
    length res' = length res /\ (i <= n <= i + length frames)%nat /\
    (forall j, (j < i \/ n <= j)%nat -> nth_error res' j = nth_error res j).
Proof.
  induction frames as [|ts rest IH]; intros i cand count res res' cand' count' n H;
    simpl in H.
  - injection H as <- <- <- <-. repeat split; lia.
  - destruct (setitem res i _) as [r1|] eqn:Hr1; simpl in H; [|discriminate].
    destruct (prune rnd64 self _ cand count) as [[c1 k1]|] eqn:Hp; simpl in H;
      [|discriminate].
    apply setitem_Ok in Hr1. destruct Hr1 as (Hi & Hl & _ & Hother).
    destruct (length c1 =? 0)%nat.
    + injection H as <- <- <- <-. simpl. repeat split; try lia.
      intros j Hj. apply Hother. lia.
    + apply IH in H. destruct H as (H1 & H2 & H3). simpl.
      repeat split; try lia.
      intros j Hj. rewrite H3 by lia. apply Hother. lia.
Qed.

(** Once the tracked set is empty after a frame, the frames after it are
    not looked at. *)
Lemma loop_stops_when_empty (ts : Frame) (rest : list Frame) (i : nat)
    (cand : list (nat * nat)) (count count' : option (list Q)) (res : list float) :
  prune rnd64 self (winners_of self ts cand) cand count = Ok ([], count') ->
  loop rnd32 rnd64 self (ts :: rest) i cand count res
  = loop rnd32 rnd64 self [ts] i cand count res.
Proof.
  intros Hp. simpl. destruct (setitem res i _); simpl; trivial.
  rewrite Hp. reflexivity.
Qed.

(** The pairs left by the loop were all tracked at its start. *)
Lemma loop_subseq (frames : list Frame) :
  forall i cand count res res' cand' count' n,
    counters_aligned self cand count ->
    loop rnd32 rnd64 self frames i cand count res = Ok (res', cand', count', n) ->
    subseq cand' cand.
Proof.
  induction frames as [|ts rest IH]; intros i cand count res res' cand' count' n Hinv H;
    simpl in H.
  - injection H as <- <- <- <-. apply subseq_refl.
  - destruct (setitem res i _) as [r1|] eqn:Hr1; simpl in H; [|discriminate].
    destruct (prune_ok (winners_of self ts cand) (winners_of_length ts cand) Hinv)
      as (c1 & k1 & Hp & Hsub & Hinv').
    rewrite Hp in H. simpl in H.
    destruct (length c1 =? 0)%nat.
    + injection H as <- <- <- <-. trivial.
    + eapply subseq_trans; [eapply IH; eauto | trivial].
Qed.

(** The counters stay aligned with the tracked pairs through the loop. *)
Lemma loop_aligned (frames : list Frame) :
  forall i cand count res res' cand' count' n,
    counters_aligned self cand count ->
    loop rnd32 rnd64 self frames i cand count res = Ok (res', cand', count', n) ->
    counters_aligned self cand' count'.
Proof.
  induction frames as [|ts rest IH]; intros i cand count res res' cand' count' n Hinv H;
    simpl in H.
  - injection H as <- <- <- <-. trivial.
  - destruct (setitem res i _) as [r1|] eqn:Hr1; simpl in H; [|discriminate].
    destruct (prune_ok (winners_of self ts cand) (winners_of_length ts cand) Hinv)
      as (c1 & k1 & Hp & _ & Hinv').
    rewrite Hp in H. simpl in H.
    destruct (length c1 =? 0)%nat.
    + injection H as <- <- <- <-. trivial.
    + eapply IH; eauto.
Qed.

(** The loop over [l1 ++ l2] is the loop over [l1] followed, unless it has
    stopped there, by the loop over [l2] on the locals it has left. *)
Lemma loop_app (l1 l2 : list Frame) :
  forall i cand count res,
    loop rnd32 rnd64 self (l1 ++ l2) i cand count res
    = match loop rnd32 rnd64 self l1 i cand count res with
      | Ok (r, c, k, n) =>
          if negb (length l1 =? 0)%nat && (length c =? 0)%nat
          then Ok (r, c, k, n)
          else loop rnd32 rnd64 self l2 n c k r
      | Raise e => Raise e
      end.
Proof.
  induction l1 as [|ts rest IH]; intros i cand count res.
  - reflexivity.
  - change ((ts :: rest) ++ l2) with (ts :: (rest ++ l2)).
    cbn [loop]. destruct (setitem res i _) as [r1|]; cbn [bind]; trivial.
    destruct (prune rnd64 self _ cand count) as [[c1 k1]|]; cbn [bind]; trivial.
    destruct (length c1 =? 0)%nat eqn:E.
    + cbn [length Nat.eqb negb andb]. now rewrite E.
    + rewrite IH. destruct rest as [|ts' rest'].
      * cbn [loop length Nat.eqb negb andb]. now rewrite E.
      * destruct (loop rnd32 rnd64 self (ts' :: rest') (S i) c1 k1 r1)
          as [[[[r c] k] n]|]; reflexivity.
Qed.

(** Every frame below the index at which the loop ends has been reached:
    the loop over the frames before it has not stopped. *)
Lemma loop_reaches (frames : list Frame) :
  forall k i cand count res res' cand' count' n,
    loop rnd32 rnd64 self frames i cand count res = Ok (res', cand', count', n) ->
    (i + k < n)%nat ->
    exists ts resk candk cntk,
      nth_error frames k = Some ts /\
      loop rnd32 rnd64 self (firstn k frames) i cand count res
      = Ok (resk, candk, cntk, (i + k)%nat) /\
      negb (length (firstn k frames) =? 0)%nat && (length candk =? 0)%nat = false.
Proof.
  induction frames as [|ts rest IH];
    intros k i cand count res res' cand' count' n H Hk.
  - simpl in H. injection H as <- <- <- <-. lia.
  - destruct k as [|k].
    + exists ts, res, cand, count. rewrite Nat.add_0_r. repeat split.
    + cbn [loop] in H. cbn [firstn loop nth_error].
      destruct (setitem res i _) as [r1|]; cbn [bind] in *; [|discriminate].
      destruct (prune rnd64 self _ cand count) as [[c1 k1]|]; cbn [bind] in *;
        [|discriminate].
      destruct (length c1 =? 0)%nat eqn:E.
      * injection H as <- <- <- <-. lia.
      * destruct (IH k (S i) c1 k1 r1 res' cand' count' n H ltac:(lia))
          as (ts' & resk & candk & cntk & Hts & Hl & Hb).
        exists ts', resk, candk, cntk. split; [exact Hts|]. split.
        -- rewrite Hl. f_equal. f_equal. lia.
        -- cbn [length Nat.eqb negb andb].
           destruct (firstn k rest) as [|f fs] eqn:Ef.
           ++ simpl in Hl. injection Hl as <- <- <- _. exact E.
           ++ exact Hb.
Qed.

Lemma skipn_nth_error {A : Type} (l : list A) :
  forall k x, nth_error l k = Some x -> skipn k l = x :: skipn (S k) l.
Proof.
  induction l as [|y l IH]; intros [|k] x H; simpl in H; try discriminate.
  - now injection H as <-.
  - apply IH in H. exact H.
Qed.

Lemma firstn_S_nth_error {A : Type} (l : list A) :
  forall k x, nth_error l k = Some x -> firstn (S k) l = firstn k l ++ [x].
Proof.
  induction l as [|y l IH]; intros [|k] x H; simpl in H; try discriminate.
  - now injection H as <-.
  - apply IH in H. simpl in *. now rewrite H.
Qed.

End Tracker.

(** ** The two lifetime definitions *)

Section Modes.

Variable rnd32 : Q -> Q.
Variable rnd64 : Q -> Q.
Variable self : HydrogenBondAutoCorrel.

Lemma descending_nth (l : list nat) :
  forall bound j k x y,
    descending bound l -> (j <= k)%nat ->
    nth_error l j = Some x -> nth_error l k = Some y ->
    (y <= x <= bound)%nat.
Proof.
  induction l as [|z l IH]; intros bound j k x y Hd Hjk Hx Hy.
  - destruct j; discriminate.
  - destruct Hd as [Hz Hd]. destruct j as [|j]; simpl in Hx.
    + injection Hx as <-. destruct k as [|k]; simpl in Hy.
      * injection Hy as <-. lia.
      * destruct l as [|z' l']; [destruct k; discriminate|].
        assert (H0 : nth_error (z' :: l') 0 = Some z') by reflexivity.
        pose proof (IH z 0%nat k z' y Hd (Nat.le_0_l k) H0 Hy). lia.
    + destruct k as [|k]; [lia|]. simpl in Hy.
      pose proof (IH z j k x y Hd (proj2 (Nat.succ_le_mono j k) Hjk) Hx Hy). lia.
Qed.

Lemma continuous_counts_descending (frames : list Frame) :
  forall cand, descending (length cand) (continuous_counts self frames cand).
Proof.
  induction frames as [|ts rest IH]; intros cand; simpl; trivial.
  split.
  - rewrite <- (winners_of_length self ts cand). apply bsum_le_length.
  - destruct (length (mask _ cand) =? 0)%nat; simpl; trivial.
    rewrite <- (bsum_mask_length (winners_of self ts cand) cand)
      by apply winners_of_length.
    apply IH.
Qed.

(** A continuous count never exceeds the number of seed pairs that satisfy
    the criteria at the same frame. *)
Lemma continuous_counts_le (frames : list Frame) :
  forall cand seed0 k c,
    subseq cand seed0 ->
    nth_error (continuous_counts self frames cand) k = Some c ->
    exists ts, nth_error frames k = Some ts /\
               (c <= bsum (winners_of self ts seed0))%nat.
Proof.
  induction frames as [|ts rest IH]; intros cand seed0 k c Hsub Hk; simpl in Hk.
  - destruct k; discriminate.
  - destruct k as [|k]; simpl in Hk.
    + injection Hk as <-. exists ts. split; trivial.
      unfold winners_of. now apply bsum_map_subseq.
    + destruct (length (mask _ cand) =? 0)%nat; [destruct k; discriminate|].
      simpl. eapply IH; [|exact Hk].
      eapply subseq_trans; [|exact Hsub].
      apply mask_subseq, winners_of_length.
Qed.

Lemma continuous_counts_length (frames : list Frame) (cand : list (nat * nat)) :
  (length (continuous_counts self frames cand) <= length frames)%nat.
Proof.
  revert cand. induction frames as [|ts rest IH]; intros cand; simpl; trivial.
  destruct (length (mask _ cand) =? 0)%nat; simpl; [lia|].
  specialize (IH (mask (winners_of self ts cand) cand)). lia.
Qed.

(** In continuous mode the loop records [continuous_counts]. *)
Lemma loop_continuous (frames : list Frame) :
  is_literal (bond_type self) "continuous" = true ->
  forall i cand count res res' cand' count' n,
    loop rnd32 rnd64 self frames i cand count res = Ok (res', cand', count', n) ->
    n = (i + length (continuous_counts self frames cand))%nat /\
    forall k c, nth_error (continuous_counts self frames cand) k = Some c ->
                nth_error res' (i + k) = Some (of_nat rnd32 c).
Proof.
  intros Hc. induction frames as [|ts rest IH];
    intros i cand count res res' cand' count' n H.
  - simpl in *. injection H as <- <- <- <-. split; [lia|].
    intros [|k] c Hk; discriminate.
  - pose proof H as Hall. simpl in H.
    destruct (setitem res i _) as [r1|] eqn:Hr1; simpl in H; [|discriminate].
    unfold prune in H. rewrite Hc in H. simpl in H.
    apply setitem_Ok in Hr1. destruct Hr1 as (Hi & Hl & Hv & Hother).
    simpl. destruct (length (mask _ cand) =? 0)%nat.
    + injection H as <- <- <- <-. simpl. split; [lia|].
      intros [|k] c Hk; simpl in Hk; [|destruct k; discriminate].
      injection Hk as <-. now rewrite Nat.add_0_r.
    + pose proof (loop_frame _ _ _ _ _ _ _ _ H) as (_ & _ & Hkeep).
      apply IH in H. destruct H as [Hn Hk]. simpl. split; [lia|].
      intros [|k] c Hc'; simpl in Hc'.
      * injection Hc' as <-. rewrite Nat.add_0_r, Hkeep by lia. exact Hv.
      * rewrite <- Nat.add_succ_comm. now apply Hk.
Qed.

(** Without a forgiveness window the intermittent loop never touches the
    tracked pairs nor the counters. *)
Lemma loop_intermittent_state (frames : list Frame) :
  is_literal (bond_type self) "continuous" = false ->
  truthy (time_cut self) = false ->
  forall i cand count res res' cand' count' n,
    loop rnd32 rnd64 self frames i cand count res = Ok (res', cand', count', n) ->
    cand' = cand /\ count' = count.
Proof.
  intros Hc Ht. induction frames as [|ts rest IH];
    intros i cand count res res' cand' count' n H; simpl in H.
  - injection H as <- <- <- <-. auto.
  - destruct (setitem res i _) as [r1|]; simpl in H; [|discriminate].
    assert (Hp : prune rnd64 self (winners_of self ts cand) cand count = Ok (cand, count)).
    { unfold prune. rewrite Hc. destruct (is_literal _ "intermittent"); trivial.
      unfold truthy in Ht. destruct (time_cut self) as [tc|]; trivial.
      now rewrite Ht. }
    rewrite Hp in H. simpl in H.
    destruct (length cand =? 0)%nat.
    + injection H as <- <- <- <-. auto.
    + now apply IH in H.
Qed.

(** ... and, when pairs are tracked at all, it goes through every frame
    and records how many of them satisfy the criteria there. *)
Lemma loop_intermittent (frames : list Frame) :
  is_literal (bond_type self) "continuous" = false ->
  truthy (time_cut self) = false ->
  forall i cand count res res' cand' count' n,
    cand <> [] ->
    loop rnd32 rnd64 self frames i cand count res = Ok (res', cand', count', n) ->
    n = (i + length frames)%nat /\
    forall k ts, nth_error frames k = Some ts ->
                 nth_error res' (i + k)
                 = Some (of_nat rnd32 (bsum (winners_of self ts cand))).
Proof.
  intros Hc Ht. induction frames as [|ts rest IH];
    intros i cand count res res' cand' count' n Hne H; simpl in H.
  - injection H as <- <- <- <-. split; [simpl; lia|].
    intros [|k] ts Hk; discriminate.
  - destruct (setitem res i _) as [r1|] eqn:Hr1; simpl in H; [|discriminate].
    assert (Hp : prune rnd64 self (winners_of self ts cand) cand count = Ok (cand, count)).
    { unfold prune. rewrite Hc. destruct (is_literal _ "intermittent"); trivial.
      unfold truthy in Ht. destruct (time_cut self) as [tc|]; trivial.
      now rewrite Ht. }
    rewrite Hp in H. simpl in H.
    apply setitem_Ok in Hr1. destruct Hr1 as (Hi & Hl & Hv & Hother).
    destruct (length cand =? 0)%nat eqn:E0.
    + apply Nat.eqb_eq in E0. destruct cand; [contradiction | discriminate].
    + pose proof (loop_frame _ _ _ _ _ _ _ _ H) as (_ & _ & Hkeep).
      apply IH in H; trivial. destruct H as [Hn Hk]. simpl. split; [lia|].
      intros [|k] ts' Hts; simpl in Hts.
      * injection Hts as <-. rewrite Nat.add_0_r, Hkeep by lia. exact Hv.
      * rewrite <- Nat.add_succ_comm. now apply Hk.
Qed.

End Modes.

(** ** One pass over a window *)

Section Window.

Variable rnd32 : Q -> Q.
Variable rnd64 : Q -> Q.
Variable self : HydrogenBondAutoCorrel.

Lemma traj_slice_length (idx : list Z) :
  (length (traj_slice self idx) <= length idx)%nat.
Proof.
  unfold traj_slice. induction idx as [|k idx IH]; simpl; trivial.
  rewrite length_app.
  destruct (k <? 0)%Z; simpl; [lia|].
  destruct (nth_error _ _); simpl; lia.
Qed.

Lemma traj_slice_cons_seek (start : Z) (idx : list Z) (ts0 : Frame) :
  seek self start = Ok ts0 ->
  traj_slice self (start :: idx) = ts0 :: traj_slice self idx.
Proof.
  unfold seek, traj_slice. simpl. intros H.
  destruct (start <? 0)%Z; [discriminate|].
  destruct (nth_error _ _) as [f|]; [|discriminate].
  injection H as ->. reflexivity.
Qed.

Lemma initial_count_aligned (cand : list (nat * nat)) :
  counters_aligned self cand (initial_count self (length cand)).
Proof.
  intros _ Ht. unfold initial_count. rewrite Ht.
  eexists. split; [reflexivity | apply repeat_length].
Qed.

Lemma tracked_run_inv (start stop : Z) (n0 : nat) (res : list float)
    (cand' : list (nat * nat)) (cnt : option (list Q)) (n : nat) :
  tracked_run rnd32 rnd64 self start stop = Ok (n0, (res, cand', cnt, n)) ->
  exists ts0 cand idx,
    seek self start = Ok ts0 /\ seed rnd64 self ts0 = Ok cand /\ n0 = length cand /\
    arange start stop (_skip self) = Ok idx /\
    loop rnd32 rnd64 self (traj_slice self idx) 0 cand (initial_count self n0)
         (repeat fzero (length idx)) = Ok (res, cand', cnt, n).
Proof.
  unfold tracked_run. intros H.
  destruct (seek self start) as [ts0|] eqn:Hs; simpl in H; [|discriminate].
  destruct (seed rnd64 self ts0) as [cand|] eqn:Hc; simpl in H; [|discriminate].
  destruct (arange start stop (_skip self)) as [idx|] eqn:Ha; simpl in H;
    [|discriminate].
  destruct (loop _ _ _ _ _ _ _ _) as [st|] eqn:Hl; simpl in H; [|discriminate].
  injection H as <- ->. exists ts0, cand, idx. repeat split; trivial.
Qed.

(** A pass whose seed could be computed goes through: nothing in the loop
    or after it raises. *)
Lemma tracked_run_total (start stop : Z) (ts0 : Frame) (cand : list (nat * nat)) :
  seek self start = Ok ts0 -> seed rnd64 self ts0 = Ok cand -> _skip self <> 0%Z ->
  exists st, tracked_run rnd32 rnd64 self start stop = Ok (length cand, st).
Proof.
  intros Hs Hc Hk. unfold tracked_run. rewrite Hs. simpl. rewrite Hc. simpl.
  destruct (arange_ok start stop Hk) as (idx & -> & _). simpl.
  destruct (loop_total rnd32 rnd64 (traj_slice self idx) 0%nat
              (repeat fzero (length idx)) (initial_count_aligned cand))
    as (res' & cand' & count' & n & Hl).
  { rewrite repeat_length. apply traj_slice_length. }
  unfold initial_count in Hl. rewrite Hl. simpl. eauto.
Qed.

Lemma single_run_inv (start stop : Z) (r : list float) :
  _single_run rnd32 rnd64 self start stop = Ok r ->
  exists n0 res cand' cnt n,
    tracked_run rnd32 rnd64 self start stop = Ok (n0, (res, cand', cnt, n)) /\
    r = map (normalise rnd32 n0) res.
Proof.
  unfold _single_run. intros H.
  destruct (tracked_run _ _ _ _ _) as [[n0 [[[res cand'] cnt] n]]|]; simpl in H;
    [|discriminate].
  injection H as <-. exists n0, res, cand', cnt, n. auto.
Qed.

Lemma single_run_of_tracked (start stop : Z) (n0 : nat) (res : list float)
    (cand' : list (nat * nat)) (cnt : option (list Q)) (n : nat) :
  tracked_run rnd32 rnd64 self start stop = Ok (n0, (res, cand', cnt, n)) ->
  _single_run rnd32 rnd64 self start stop = Ok (map (normalise rnd32 n0) res).
Proof.
  unfold _single_run. intros ->. reflexivity.
Qed.

(** The returned array always has the nominal length of the window. *)
Lemma single_run_length (start stop : Z) (r : list float) :
  _single_run rnd32 rnd64 self start stop = Ok r ->
  length r = arange_len start stop (_skip self).
Proof.
  intros H. apply single_run_inv in H.
  destruct H as (n0 & res & cand' & cnt & n & Ht & ->).
  apply tracked_run_inv in Ht.
  destruct Ht as (ts0 & cand & idx & _ & _ & _ & Ha & Hl).
  apply loop_frame in Hl. destruct Hl as (Hlen & _).
  apply arange_inv in Ha. destruct Ha as (_ & Ha & _).
  rewrite length_map, Hlen, repeat_length. exact Ha.
Qed.

(** C1 (amended).  When the tracked set is empty after [n] frames and the
    window has more than [n] frames, [_single_run] has stopped after those
    [n] frames, and it returns an array of the full nominal length
    [len(arange(start, stop, skip))]: the entries from index [n] on are the
    initial zeros divided by the number of bonds at t=0.  The array is not
    cut down to the frames gone through. *)
Theorem single_run_early_stop_keeps_length (start stop : Z) (n0 : nat)
    (res : list float) (cnt : option (list Q)) (n : nat) :
  tracked_run rnd32 rnd64 self start stop = Ok (n0, (res, [], cnt, n)) ->
  (n < arange_len start stop (_skip self))%nat ->
  exists r,
    _single_run rnd32 rnd64 self start stop = Ok r /\
    length r = arange_len start stop (_skip self) /\
    forall j, (n <= j < length r)%nat ->
              nth_error r j = Some (normalise rnd32 n0 fzero).
Proof.
  intros Ht Hn. pose proof (single_run_of_tracked _ _ Ht) as Hr.
  eexists. split; [exact Hr|]. split; [exact (single_run_length _ _ Hr)|].
  intros j Hj. rewrite length_map in Hj.
  apply tracked_run_inv in Ht.
  destruct Ht as (ts0 & cand & idx & _ & _ & _ & Ha & Hl).
  apply loop_frame in Hl. destruct Hl as (Hlen & _ & Hkeep).
  rewrite nth_error_map, Hkeep by lia.
  rewrite Hlen, repeat_length in Hj.
  rewrite (nth_error_repeat fzero) by lia. reflexivity.
Qed.

(** C7 (amended).  A window with no bond at t=0 does not raise, and the
    division by the number of bonds is not guarded: the loop stops after
    the first frame of the window (it has gone through 1 frame, or through
    none when the window is empty) with nothing tracked, and [_single_run]
    returns an array of the nominal length of the window whose entries are
    all [nan], the value of [0.0 / 0]. *)
Theorem single_run_no_bonds_all_nan (start stop : Z) (ts0 : Frame) :
  rnd32 0 == 0 ->
  seek self start = Ok ts0 -> seed rnd64 self ts0 = Ok [] -> _skip self <> 0%Z ->
  _single_run rnd32 rnd64 self start stop
  = Ok (repeat NaN (arange_len start stop (_skip self))) /\
  exists res cnt n,
    tracked_run rnd32 rnd64 self start stop = Ok (0%nat, (res, [], cnt, n)) /\
    n = (if (arange_len start stop (_skip self) =? 0)%nat then 0 else 1)%nat.
Proof.
  intros H0 Hs Hc Hk.
  assert (Hnan : forall q, q == 0 -> normalise rnd32 0 (Fin q) = NaN).
  { intros q Hq. unfold normalise, of_nat, of_Z. now apply fdiv_zero_zero. }
  assert (Hall : forall m, map (normalise rnd32 0) (repeat fzero m) = repeat NaN m).
  { intros m. rewrite map_repeat. f_equal. now apply Hnan. }
  destruct (arange_ok start stop Hk) as (idx & Ha & Hlen).
  assert (Ht : exists res cnt n,
             tracked_run rnd32 rnd64 self start stop = Ok (0%nat, (res, [], cnt, n)) /\
             n = (if (arange_len start stop (_skip self) =? 0)%nat then 0 else 1)%nat /\
             map (normalise rnd32 0) res
             = repeat NaN (arange_len start stop (_skip self))).
  { unfold tracked_run. rewrite Hs. cbn [bind]. rewrite Hc. cbn [bind].
    rewrite Ha. cbn [bind]. rewrite <- Hlen.
    destruct idx as [|x idx'].
    - simpl. eexists _, _, _. split; [reflexivity|]. split; reflexivity.
    - pose proof (arange_inv _ _ _ Ha) as (_ & _ & Hx).
      specialize (Hx x eq_refl). subst x.
      rewrite (@traj_slice_cons_seek start idx' ts0 Hs).
      destruct (@prune_ok rnd64 self [] [] (initial_count self 0) eq_refl
                  (initial_count_aligned [])) as (c1 & k1 & Hp & Hsub & _).
      unfold initial_count in Hp. inversion Hsub; subst.
      simpl. unfold winners_of in Hp. simpl in Hp. rewrite Hp. simpl.
      eexists _, _, _. split; [reflexivity|]. split; [reflexivity|].
      simpl. rewrite Hall. f_equal.
      apply (Hnan (rnd32 (inject_Z 0))). exact H0. }
  destruct Ht as (res & cnt & n & Ht & Hn & Hres).
  split.
  - rewrite (single_run_of_tracked _ _ Ht). now rewrite Hres.
  - exists res, cnt, n. auto.
Qed.

End Window.

(** ** Survival curves *)

Section Curves.

Variable rnd32 : Q -> Q.
Variable rnd64 : Q -> Q.
Hypothesis R32 : Rounding rnd32.

Lemma divisor_pos (n0 : nat) : n0 <> 0%nat -> 0 < divisor rnd32 n0.
Proof.
  intros H. apply Qlt_le_trans with 1; [reflexivity|].
  apply rnd_nat_pos; trivial. lia.
Qed.

Lemma normalise_Fin (n0 : nat) (q : Q) :
  n0 <> 0%nat -> normalise rnd32 n0 (Fin q) = Fin (rnd32 (q / divisor rnd32 n0)).
Proof.
  intros H. unfold normalise, of_nat, of_Z. apply fdiv_Fin. now apply divisor_pos.
Qed.

Lemma normalise_le (n0 : nat) (p q : Q) :
  n0 <> 0%nat -> p <= q ->
  fle (normalise rnd32 n0 (Fin p)) (normalise rnd32 n0 (Fin q)).
Proof.
  intros H Hpq. rewrite !normalise_Fin by trivial. simpl.
  apply rnd_div_mono; trivial. now apply divisor_pos.
Qed.

Lemma normalise_unit_interval (n0 : nat) (q : Q) :
  n0 <> 0%nat -> 0 <= q -> q <= divisor rnd32 n0 ->
  fle (Fin 0) (normalise rnd32 n0 (Fin q)) /\ fle (normalise rnd32 n0 (Fin q)) (Fin 1).
Proof.
  intros H H0 H1. pose proof (divisor_pos H) as HN.
  rewrite normalise_Fin by trivial. simpl. split.
  - apply rnd_nonneg; trivial. apply Qle_shift_div_l; trivial.
    now rewrite Qmult_0_l.
  - apply rnd_le_one; trivial. apply Qle_shift_div_r; trivial.
    now rewrite Qmult_1_l.
Qed.

Lemma normalise_full (n0 : nat) :
  n0 <> 0%nat -> feq (normalise rnd32 n0 (of_nat rnd32 n0)) (Fin 1).
Proof.
  intros H. pose proof (divisor_pos H) as HN.
  unfold of_nat, of_Z. rewrite normalise_Fin by trivial. simpl.
  rewrite <- (rnd_one R32). apply rnd_proper; trivial.
  unfold Qdiv. apply Qmult_inv_r. intros E.
  apply (Qlt_not_eq _ _ HN). symmetry. exact E.
Qed.

Variable self : HydrogenBondAutoCorrel.

Lemma continuous_raw_bounds (bound : nat) (cs : list nat) (j : nat) :
  descending bound cs ->
  0 <= continuous_raw rnd32 cs j /\ continuous_raw rnd32 cs j <= divisor rnd32 bound.
Proof.
  intros Hd. unfold continuous_raw.
  destruct (nth_error cs j) as [c|] eqn:E.
  - split; [now apply rnd_nat_nonneg|].
    apply rnd_nat_mono; trivial.
    pose proof (@descending_nth cs bound j j c c Hd (Nat.le_refl j) E E). lia.
  - split; [apply Qle_refl | now apply rnd_nat_nonneg].
Qed.

Lemma continuous_raw_mono (bound : nat) (cs : list nat) (j k : nat) :
  descending bound cs -> (j <= k)%nat ->
  continuous_raw rnd32 cs k <= continuous_raw rnd32 cs j.
Proof.
  intros Hd Hjk. unfold continuous_raw.
  destruct (nth_error cs k) as [y|] eqn:Ek.
  - destruct (nth_error cs j) as [x|] eqn:Ej.
    + apply rnd_nat_mono; trivial.
      pose proof (@descending_nth cs bound j k x y Hd Hjk Ej Ek). lia.
    + apply nth_error_None in Ej.
      assert (Hk : nth_error cs k <> None) by congruence.
      apply nth_error_Some in Hk. lia.
  - destruct (nth_error cs j); [now apply rnd_nat_nonneg | apply Qle_refl].
Qed.

(** What a continuous pass leaves in [results] before the division. *)
Lemma continuous_results (start stop : Z) (n0 : nat) (res : list float)
    (cand' : list (nat * nat)) (cnt : option (list Q)) (n : nat) :
  is_literal (bond_type self) "continuous" = true ->
  tracked_run rnd32 rnd64 self start stop = Ok (n0, (res, cand', cnt, n)) ->
  exists ts0 cand idx,
    seek self start = Ok ts0 /\ seed rnd64 self ts0 = Ok cand /\ n0 = length cand /\
    arange start stop (_skip self) = Ok idx /\
    forall j, (j < length res)%nat ->
      nth_error res j
      = Some (Fin (continuous_raw rnd32
                     (continuous_counts self (traj_slice self idx) cand) j)).
Proof.
  intros Hc Ht. apply tracked_run_inv in Ht.
  destruct Ht as (ts0 & cand & idx & Hs & Hse & Hn & Ha & Hl).
  exists ts0, cand, idx. repeat split; trivial.
  pose proof Hl as Hf. apply loop_frame in Hf. destruct Hf as (Hlen & _ & Hkeep).
  pose proof Hl as Hk. eapply loop_continuous in Hk; [|exact Hc].
  destruct Hk as (Hnn & Hk).
  intros j Hj. unfold continuous_raw.
  destruct (nth_error (continuous_counts _ _ _) j) as [c|] eqn:E.
  - apply (Hk j c E).
  - apply nth_error_None in E. simpl in Hnn.
    rewrite Hkeep by lia. rewrite Hlen, repeat_length in Hj.
    now rewrite (nth_error_repeat fzero).
Qed.

(** C5 (amended).  For a window run in continuous mode, with [bond_type]
    the object of the literal ['continuous'] so that the test of line 354
    holds, that has at least one bond at t=0, the curve returned by
    [_single_run] never goes up with the index and all its values lie in
    [0, 1]. *)
Theorem continuous_curve_nonincreasing (start stop : Z) (n0 : nat)
    (st : list float * list (nat * nat) * option (list Q) * nat) (r : list float) :
  is_literal (bond_type self) "continuous" = true ->
  tracked_run rnd32 rnd64 self start stop = Ok (n0, st) ->
  n0 <> 0%nat ->
  _single_run rnd32 rnd64 self start stop = Ok r ->
  Forall (fun x => fle (Fin 0) x /\ fle x (Fin 1)) r /\
  forall j k x y, (j <= k)%nat ->
                  nth_error r j = Some x -> nth_error r k = Some y -> fle y x.
Proof.
  intros Hc Ht Hn0 Hr. destruct st as [[[res cand'] cnt] n].
  pose proof Ht as Hr'. apply single_run_of_tracked in Hr'.
  rewrite Hr' in Hr. injection Hr as <-. clear Hr'.
  pose proof Ht as Hcr. apply continuous_results in Hcr; trivial.
  destruct Hcr as (ts0 & cand & idx & _ & _ & Hn & _ & Hres).
  pose proof (continuous_counts_descending self (traj_slice self idx) cand) as Hd.
  rewrite <- Hn in Hd.
  assert (Hentry : forall j x, nth_error (map (normalise rnd32 n0) res) j = Some x ->
            x = normalise rnd32 n0
                  (Fin (continuous_raw rnd32
                          (continuous_counts self (traj_slice self idx) cand) j))).
  { intros j x Hx. rewrite nth_error_map in Hx.
    destruct (nth_error res j) as [v|] eqn:E; [|discriminate].
    assert (Hj : (j < length res)%nat) by (apply nth_error_Some; congruence).
    rewrite (Hres j Hj) in E. simpl in Hx. congruence. }
  split.
  - apply Forall_forall. intros x Hin.
    apply In_nth_error in Hin. destruct Hin as [j Hj].
    rewrite (Hentry j x Hj).
    destruct (@continuous_raw_bounds n0 _ j Hd). now apply normalise_unit_interval.
  - intros j k x y Hjk Hx Hy.
    rewrite (Hentry j x Hx), (Hentry k y Hy).
    apply normalise_le; trivial. now apply continuous_raw_mono with n0.
Qed.

End Curves.

(** ** The seed population *)

Section Seed.

Variable rnd32 : Q -> Q.
Variable rnd64 : Q -> Q.
Variable self : HydrogenBondAutoCorrel.

(** Every pair of the seed is closer than [d_crit] in the (possibly
    overwritten) distance matrix and has an angle above [a_crit]. *)
Lemma seed_In (ts : Frame) (cand : list (nat * nat)) (p : nat * nat) :
  seed rnd64 self ts = Ok cand -> In p cand ->
  (exists excl, Qltb (excluded_distance rnd64 self ts excl p) (d_crit self) = true) /\
  Qltb (a_crit self) (calc_angles ts (pbc self) (fst p) (snd p)) = true.
Proof.
  unfold seed. intros H Hin.
  destruct (match exclusions self with Some (e0, e1) => _ | None => _ end)
    as [excl|]; simpl in H; [|discriminate].
  destruct (forallb _ _); [|discriminate].
  injection H as <-. apply filter_In in Hin. destruct Hin as [Hin Hang].
  apply filter_In in Hin. destruct Hin as [_ Hd]. eauto.
Qed.

(** At the frame of the seed every seed pair is a winner, provided that
    [d_crit + 1.0] is not below [d_crit] and that [calc_bonds] agrees with
    [distance_array] on that frame. *)
Lemma seed_all_winners (ts : Frame) (cand : list (nat * nat)) :
  d_crit self <= rnd64 (d_crit self + 1) ->
  (forall i j, calc_bonds ts (pbc self) i j == distance_array ts (pbc self) i j) ->
  seed rnd64 self ts = Ok cand ->
  bsum (winners_of self ts cand) = length cand.
Proof.
  intros Hex Hgeo Hs.
  rewrite <- (winners_of_length self ts cand). apply bsum_all_true.
  unfold winners_of. apply Forall_forall. intros b Hb.
  apply in_map_iff in Hb. destruct Hb as (p & <- & Hin).
  destruct (@seed_In ts cand p Hs Hin) as [[excl Hd] Ha]. rewrite Ha, andb_true_r.
  apply Qltb_lt. apply Qltb_lt in Hd. unfold excluded_distance in Hd.
  destruct (existsb _ excl).
  - exfalso. apply (Qlt_irrefl (d_crit self)).
    eapply Qle_lt_trans; eauto.
  - now rewrite Hgeo.
Qed.

Lemma loop_first (ts : Frame) (rest : list Frame) (cand : list (nat * nat))
    (count : option (list Q)) (res res' : list float) (cand' : list (nat * nat))
    (count' : option (list Q)) (n : nat) :
  loop rnd32 rnd64 self (ts :: rest) 0 cand count res = Ok (res', cand', count', n) ->
  nth_error res' 0 = Some (of_nat rnd32 (bsum (winners_of self ts cand))).
Proof.
  intros H. simpl in H.
  destruct (setitem res 0 _) as [r1|] eqn:Hr1; simpl in H; [|discriminate].
  destruct (prune rnd64 self _ cand count) as [[c1 k1]|]; simpl in H; [|discriminate].
  apply setitem_Ok in Hr1. destruct Hr1 as (_ & _ & Hv & _).
  destruct (length c1 =? 0)%nat.
  - injection H as <- <- <- <-. exact Hv.
  - apply loop_frame in H. destruct H as (_ & _ & Hkeep).
    rewrite Hkeep by lia. exact Hv.
Qed.

(** C6.  For a window with at least one bond at t=0 and at least one
    frame, the value at offset 0 of the curve returned by [_single_run] is
    exactly 1.0: the frame at offset 0 is the frame of the seed, where
    every tracked pair satisfies the distance and angle criteria. *)
Theorem single_run_starts_at_one (start stop : Z) (ts0 : Frame) (n0 : nat)
    (st : list float * list (nat * nat) * option (list Q) * nat) (r : list float) :
  Rounding rnd32 ->
  d_crit self <= rnd64 (d_crit self + 1) ->
  seek self start = Ok ts0 ->
  (forall i j, calc_bonds ts0 (pbc self) i j == distance_array ts0 (pbc self) i j) ->
  tracked_run rnd32 rnd64 self start stop = Ok (n0, st) ->
  n0 <> 0%nat ->
  (0 < arange_len start stop (_skip self))%nat ->
  _single_run rnd32 rnd64 self start stop = Ok r ->
  exists x, nth_error r 0 = Some x /\ feq x (Fin 1).
Proof.
  intros R32 Hex Hs Hgeo Ht Hn0 Hlen Hr. destruct st as [[[res cand'] cnt] n].
  pose proof Ht as Hr'. apply single_run_of_tracked in Hr'.
  rewrite Hr' in Hr. injection Hr as <-. clear Hr'.
  apply tracked_run_inv in Ht.
  destruct Ht as (ts0' & cand & idx & Hs' & Hse & Hn & Ha & Hl).
  rewrite Hs in Hs'. injection Hs' as <-.
  apply arange_inv in Ha. destruct Ha as (_ & Hidx & Hhead).
  destruct idx as [|k idx]; [simpl in Hidx; lia|].
  rewrite (Hhead k eq_refl) in Hl.
  rewrite (@traj_slice_cons_seek self start idx ts0 Hs) in Hl.
  apply loop_first in Hl.
  rewrite (@seed_all_winners ts0 cand Hex Hgeo Hse), <- Hn in Hl.
  exists (normalise rnd32 n0 (of_nat rnd32 n0)). split.
  - rewrite nth_error_map, Hl. reflexivity.
  - now apply normalise_full.
Qed.

End Seed.

(** ** Continuous against intermittent *)

Section Comparison.

Variable rnd32 : Q -> Q.
Variable rnd64 : Q -> Q.
Hypothesis R32 : Rounding rnd32.
Variable self : HydrogenBondAutoCorrel.

(** [tci] is a [time_cut] that does not open a forgiveness window. *)
Variable tci : option Q.
Let sc := as_continuous self.
Let si := as_intermittent self tci.

(** What an intermittent pass without forgiveness window leaves in
    [results]: a count at every frame, zero elsewhere. *)
Lemma intermittent_results (start stop : Z) (n0 : nat) (res : list float)
    (cand' : list (nat * nat)) (cnt : option (list Q)) (n : nat) :
  truthy tci = false -> n0 <> 0%nat ->
  tracked_run rnd32 rnd64 si start stop = Ok (n0, (res, cand', cnt, n)) ->
  exists ts0 cand idx,
    seek self start = Ok ts0 /\ seed rnd64 self ts0 = Ok cand /\ n0 = length cand /\
    arange start stop (_skip self) = Ok idx /\
    forall j, (j < length res)%nat ->
      nth_error res j
      = Some match nth_error (traj_slice self idx) j with
             | Some ts => of_nat rnd32 (bsum (winners_of self ts cand))
             | None => fzero
             end.
Proof.
  intros Htc Hn0 Ht. apply tracked_run_inv in Ht.
  destruct Ht as (ts0 & cand & idx & Hs & Hse & Hn & Ha & Hl).
  exists ts0, cand, idx. repeat split; trivial.
  pose proof Hl as Hf. apply loop_frame in Hf. destruct Hf as (Hlen & _ & Hkeep).
  assert (Hne : cand <> []) by (intros ->; now apply Hn0).
  eapply loop_intermittent in Hl; trivial. destruct Hl as (Hnn & Hk).
  intros j Hj.
  change (traj_slice si idx) with (traj_slice self idx) in *.
  destruct (nth_error (traj_slice self idx) j) as [ts|] eqn:E.
  - apply (Hk j ts E).
  - apply nth_error_None in E. simpl in Hnn.
    rewrite Hkeep by lia. rewrite Hlen, repeat_length in Hj.
    now rewrite (nth_error_repeat fzero).
Qed.

(** C9 (amended).  For a window with at least one bond at t=0, the curve
    of the intermittent definition without forgiveness window is, index by
    index, at least the curve of the continuous definition computed on the
    same trajectory, selections and criteria. *)
Theorem intermittent_curve_dominates_continuous (start stop : Z) (n0 : nat)
    (st : list float * list (nat * nat) * option (list Q) * nat)
    (rc ri : list float) :
  truthy tci = false ->
  tracked_run rnd32 rnd64 sc start stop = Ok (n0, st) ->
  n0 <> 0%nat ->
  _single_run rnd32 rnd64 sc start stop = Ok rc ->
  _single_run rnd32 rnd64 si start stop = Ok ri ->
  length rc = length ri /\
  forall j x y, nth_error rc j = Some x -> nth_error ri j = Some y -> fle x y.
Proof.
  intros Htc Ht Hn0 Hrc Hri. destruct st as [[[resc candc] cntc] nc].
  split.
  { apply single_run_length in Hrc, Hri. now rewrite Hrc, Hri. }
  pose proof Ht as Hr'. apply single_run_of_tracked in Hr'.
  rewrite Hr' in Hrc. injection Hrc as <-. clear Hr'.
  apply single_run_inv in Hri.
  destruct Hri as (n0i & resi & candi & cnti & ni & Hti & ->).
  apply continuous_results in Ht; [|reflexivity].
  destruct Ht as (ts0 & cand & idx & Hs & Hse & Hn & Ha & Hc).
  change (seek sc start) with (seek self start) in Hs.
  change (seed rnd64 sc ts0) with (seed rnd64 self ts0) in Hse.
  change (_skip sc) with (_skip self) in Ha.
  change (traj_slice sc idx) with (traj_slice self idx) in Hc.
  assert (Hn0i : n0i = n0).
  { apply tracked_run_inv in Hti.
    destruct Hti as (ts0' & cand0 & idx0 & Hs' & Hse' & Hn' & _).
    change (seek si start) with (seek self start) in Hs'.
    change (seed rnd64 si ts0') with (seed rnd64 self ts0') in Hse'.
    congruence. }
  subst n0i.
  apply intermittent_results in Hti; trivial.
  destruct Hti as (ts0' & cand0 & idx0 & Hs' & Hse' & _ & Ha' & Hi).
  assert (ts0' = ts0) by congruence. subst ts0'.
  assert (cand0 = cand) by congruence. subst cand0.
  assert (idx0 = idx) by congruence. subst idx0.
  intros j x y Hx Hy. rewrite nth_error_map in Hx, Hy.
  destruct (nth_error resc j) as [vc|] eqn:Ec; [|discriminate].
  destruct (nth_error resi j) as [vi|] eqn:Ei; [|discriminate].
  injection Hx as <-. injection Hy as <-.
  assert (Hjc : (j < length resc)%nat) by (apply nth_error_Some; congruence).
  assert (Hji : (j < length resi)%nat) by (apply nth_error_Some; congruence).
  rewrite (Hc j Hjc) in Ec. rewrite (Hi j Hji) in Ei.
  injection Ec as <-. injection Ei as <-.
  unfold continuous_raw.
  destruct (nth_error (continuous_counts sc (traj_slice self idx) cand) j)
    as [c|] eqn:E.
  - eapply continuous_counts_le in E; [|apply subseq_refl].
    destruct E as (ts & -> & Hle).
    apply normalise_le; trivial. now apply rnd_nat_mono.
  - destruct (nth_error (traj_slice self idx) j) as [ts|].
    + apply normalise_le; trivial. now apply rnd_nat_nonneg.
    + apply normalise_le; trivial. apply Qle_refl.
Qed.

End Comparison.

(** ** The forgiveness window *)

Section Forgiveness.

Variable rnd32 : Q -> Q.
Variable rnd64 : Q -> Q.
Variable self : HydrogenBondAutoCorrel.

Lemma intermittent_is_not_continuous :
  is_literal (bond_type self) "intermittent" = true ->
  is_literal (bond_type self) "continuous" = false.
Proof.
  unfold is_literal. intros H. apply andb_true_iff in H. destruct H as [_ H].
  apply String.eqb_eq in H. rewrite H. apply andb_false_r.
Qed.

(** The forgiveness branch of the loop body. *)
Lemma prune_window (tc : Q) (winners : list bool) (cand : list (nat * nat))
    (c : list Q) :
  is_literal (bond_type self) "intermittent" = true ->
  time_cut self = Some tc -> ~ tc == 0 ->
  prune rnd64 self winners cand (Some c)
  = Ok (mask (map (fun x => Qltb x tc) (update_count rnd64 self winners c)) cand,
        Some (mask (map (fun x => Qltb x tc) (update_count rnd64 self winners c))
                   (update_count rnd64 self winners c))).
Proof.
  intros Hb Ht Hz. unfold prune.
  rewrite (intermittent_is_not_continuous Hb), Hb, Ht.
  rewrite Qeq_bool_false by trivial. reflexivity.
Qed.

Lemma window_aligned (tc : Q) (cand : list (nat * nat)) (count : option (list Q)) :
  is_literal (bond_type self) "intermittent" = true ->
  time_cut self = Some tc -> ~ tc == 0 ->
  counters_aligned self cand count <->
  exists c, count = Some c /\ length c = length cand.
Proof.
  intros Hb Ht Hz. unfold counters_aligned. split.
  - intros H. apply H; [now apply intermittent_is_not_continuous|].
    unfold truthy. rewrite Ht. now rewrite Qeq_bool_false.
  - intros H _ _. exact H.
Qed.

(** The loop with a forgiveness window, frame by frame.  The locals before
    frame [k] are those the loop leaves on the first [k] frames; the loop
    goes on from them, and what the body does at frame [k] is the update of
    the counters followed by the removal of the counters that are not below
    [time_cut]. *)
Lemma loop_window_frames (tc : Q) (frames : list Frame) (i : nat)
    (cand0 : list (nat * nat)) (c0 : list Q) (res0 resF : list float)
    (candF : list (nat * nat)) (cntF : option (list Q)) (n : nat) :
  is_literal (bond_type self) "intermittent" = true ->
  time_cut self = Some tc -> ~ tc == 0 ->
  length c0 = length cand0 ->
  loop rnd32 rnd64 self frames i cand0 (Some c0) res0 = Ok (resF, candF, cntF, n) ->
  forall k, (i + k < n)%nat ->
    exists ts resk candk ck res1 cand1 c1,
      nth_error frames k = Some ts /\
      loop rnd32 rnd64 self (firstn k frames) i cand0 (Some c0) res0
      = Ok (resk, candk, Some ck, (i + k)%nat) /\
      length ck = length candk /\
      loop rnd32 rnd64 self frames i cand0 (Some c0) res0
      = loop rnd32 rnd64 self (skipn k frames) (i + k) candk (Some ck) resk /\
      loop rnd32 rnd64 self (firstn (S k) frames) i cand0 (Some c0) res0
      = Ok (res1, cand1, Some c1, S (i + k)) /\
      nth_error resF (i + k) = Some (of_nat rnd32 (bsum (winners_of self ts candk))) /\
      (forall j w x,
          nth_error (winners_of self ts candk) j = Some w ->
          nth_error ck j = Some x ->
          nth_error (update_count rnd64 self (winners_of self ts candk) ck) j
          = Some (if w then 0
                  else rnd64 (x + rnd64 (inject_Z (_skip self) * dt (u self))))) /\
      (forall p x,
          In (p, x) (combine cand1 c1) <->
          In (p, x) (combine candk
                             (update_count rnd64 self (winners_of self ts candk) ck))
          /\ x < tc) /\
      (forall m resm candm cntm nm,
          (S k <= m)%nat ->
          loop rnd32 rnd64 self (firstn m frames) i cand0 (Some c0) res0
          = Ok (resm, candm, cntm, nm) ->
          subseq candm cand1).
Proof.
  intros Hb Ht Hz Hlen H k Hk.
  assert (Hinv0 : counters_aligned self cand0 (Some c0)).
  { apply (proj2 (@window_aligned tc cand0 (Some c0) Hb Ht Hz)). eauto. }
  destruct (loop_reaches rnd32 rnd64 self frames k _ _ _ _ H Hk)
    as (ts & resk & candk & cntk & Hts & Hpre & Hgo).
  assert (Hinvk : counters_aligned self candk cntk).
  { eapply loop_aligned; [exact Hinv0 | exact Hpre]. }
  apply (proj1 (@window_aligned tc candk cntk Hb Ht Hz)) in Hinvk.
  destruct Hinvk as (ck & -> & Hck).
  (* the loop goes on from the locals before frame k *)
  assert (Hrest : loop rnd32 rnd64 self frames i cand0 (Some c0) res0
                  = loop rnd32 rnd64 self (skipn k frames) (i + k) candk (Some ck) resk).
  { rewrite <- (firstn_skipn k frames) at 1.
    rewrite loop_app, Hpre, Hgo. reflexivity. }
  (* the body at frame k *)
  pose proof H as Hfull. rewrite Hrest, (skipn_nth_error _ _ Hts) in Hfull.
  cbn [loop] in Hfull.
  set (winners := winners_of self ts candk) in *.
  set (updated := update_count rnd64 self winners ck) in *.
  destruct (setitem resk (i + k) (of_nat rnd32 (bsum winners))) as [r1|] eqn:Hr1;
    cbn [bind] in Hfull; [|discriminate].
  rewrite (prune_window winners candk ck Hb Ht Hz) in Hfull. cbn [bind] in Hfull.
  fold updated in Hfull.
  set (keep := map (fun x => Qltb x tc) updated) in *.
  assert (Hw : length winners = length candk) by apply winners_of_length.
  assert (Hu : length updated = length candk).
  { unfold updated. rewrite update_count_length; congruence. }
  assert (Hstep : loop rnd32 rnd64 self (firstn (S k) frames) i cand0 (Some c0) res0
                  = Ok (r1, mask keep candk, Some (mask keep updated), S (i + k))).
  { rewrite (firstn_S_nth_error _ _ Hts), loop_app, Hpre, Hgo.
    cbn [loop]. fold winners. rewrite Hr1. cbn [bind].
    rewrite (prune_window winners candk ck Hb Ht Hz). cbn [bind].
    fold updated. fold keep.
    destruct (length (mask keep candk) =? 0)%nat; reflexivity. }
  assert (Hinv1 : counters_aligned self (mask keep candk) (Some (mask keep updated))).
  { apply (proj2 (@window_aligned tc _ _ Hb Ht Hz)). eexists. split; [reflexivity|].
    unfold keep. rewrite !bsum_mask_length; trivial; now rewrite length_map. }
  exists ts, resk, candk, ck, r1, (mask keep candk), (mask keep updated).
  split; [exact Hts|]. split; [exact Hpre|]. split; [exact Hck|].
  split; [exact Hrest|]. split; [exact Hstep|]. split; [|split; [|split]].
  - apply setitem_Ok in Hr1. destruct Hr1 as (_ & _ & Hv & _).
    destruct (length (mask keep candk) =? 0)%nat.
    + injection Hfull as <- _ _ _. exact Hv.
    + apply loop_frame in Hfull. destruct Hfull as (_ & _ & Hkeep).
      rewrite Hkeep by lia. exact Hv.
  - intros j w x Hj Hx. unfold updated, update_count.
    now rewrite (map2_nth_error _ _ _ _ Hj Hx).
  - intros p x. unfold keep. rewrite mask_combine by congruence.
    rewrite filter_In. simpl. now rewrite Qltb_lt.
  - intros m resm candm cntm nm Hm Hloop.
    rewrite <- (firstn_skipn (S k) (firstn m frames)) in Hloop.
    rewrite firstn_firstn, Nat.min_l in Hloop by lia.
    rewrite loop_app, Hstep in Hloop.
    destruct (negb (length (firstn (S k) frames) =? 0)%nat
              && (length (mask keep candk) =? 0)%nat).
    + injection Hloop as _ <- _ _. apply subseq_refl.
    + eapply loop_subseq; [exact Hinv1 | exact Hloop].
Qed.

(** C4 (amended).  In intermittent mode (line 358 holds: [bond_type] is the
    literal ['intermittent']) with a forgiveness window [time_cut], consider
    a pass of [_single_run] that ends its loop at index [n].  For every
    frame [k < n] of the window: the locals before the frame are those the
    loop leaves on the first [k] frames, with one counter per tracked pair,
    and the pass goes on from them; the frame records the number of tracked
    pairs that satisfy the criteria; the counter of a pair that satisfies
    them is set to 0 and the counter of a pair that fails them is increased
    by [skip * dt]; after this update a pair, with its counter, is tracked
    at the next frame if and only if its counter is below [time_cut], so a
    counter equal to [time_cut] is dropped too; and a pair that has been
    dropped is not tracked at any later frame. *)
Theorem forgiveness_window_tracking (start stop : Z) (tc : Q) (n0 : nat)
    (resF : list float) (candF : list (nat * nat)) (cntF : option (list Q))
    (n : nat) :
  is_literal (bond_type self) "intermittent" = true ->
  time_cut self = Some tc -> ~ tc == 0 ->
  tracked_run rnd32 rnd64 self start stop = Ok (n0, (resF, candF, cntF, n)) ->
  exists ts0 cand0 idx,
    seek self start = Ok ts0 /\ seed rnd64 self ts0 = Ok cand0 /\
    n0 = length cand0 /\ arange start stop (_skip self) = Ok idx /\
    let frames := traj_slice self idx in
    let after k :=
      loop rnd32 rnd64 self (firstn k frames) 0 cand0 (Some (repeat 0 n0))
           (repeat fzero (length idx)) in
    after (length frames) = Ok (resF, candF, cntF, n) /\
    forall k, (k < n)%nat ->
      exists ts resk candk ck res1 cand1 c1,
        nth_error frames k = Some ts /\
        after k = Ok (resk, candk, Some ck, k) /\
        length ck = length candk /\
        after (length frames)
        = loop rnd32 rnd64 self (skipn k frames) k candk (Some ck) resk /\
        after (S k) = Ok (res1, cand1, Some c1, S k) /\
        nth_error resF k = Some (of_nat rnd32 (bsum (winners_of self ts candk))) /\
        (forall j w x,
            nth_error (winners_of self ts candk) j = Some w ->
            nth_error ck j = Some x ->
            nth_error (update_count rnd64 self (winners_of self ts candk) ck) j
            = Some (if w then 0
                    else rnd64 (x + rnd64 (inject_Z (_skip self) * dt (u self))))) /\
        (forall p x,
            In (p, x) (combine cand1 c1) <->
            In (p, x) (combine candk
                               (update_count rnd64 self (winners_of self ts candk) ck))
            /\ x < tc) /\
        (forall m resm candm cntm nm,
            (S k <= m)%nat -> after m = Ok (resm, candm, cntm, nm) ->
            subseq candm cand1).
Proof.
  intros Hb Ht Hz H.
  apply tracked_run_inv in H.
  destruct H as (ts0 & cand0 & idx & Hs & Hc & Hn & Ha & Hl).
  exists ts0, cand0, idx. split; [exact Hs|]. split; [exact Hc|].
  split; [exact Hn|]. split; [exact Ha|].
  assert (Hi : initial_count self n0 = Some (repeat 0 n0)).
  { unfold initial_count, truthy. rewrite Ht. now rewrite Qeq_bool_false. }
  rewrite Hi in Hl.
  cbv beta zeta. rewrite firstn_all. split; [exact Hl|].
  intros k Hk.
  assert (Hlen : length (repeat 0 n0) = length cand0).
  { rewrite repeat_length. exact Hn. }
  destruct (loop_window_frames (traj_slice self idx) 0 cand0 (repeat 0 n0)
              (repeat fzero (length idx)) Hb Ht Hz Hlen Hl k Hk)
    as (ts & resk & candk & ck & res1 & cand1 & c1 & H1 & H2 & H3 & H4 & H5 & H6
        & H7 & H8 & H9).
  exists ts, resk, candk, ck, res1, cand1, c1.
  repeat (split; [assumption|]). exact H9.
Qed.

(** With a [time_cut] that is [None] or zero the loop is the same loop. *)
Lemma loop_falsy_time_cut (tc1 tc2 : option Q) (frames : list Frame) :
  truthy tc1 = false -> truthy tc2 = false ->
  forall i cand count res,
    loop rnd32 rnd64 (set_time_cut self tc1) frames i cand count res
    = loop rnd32 rnd64 (set_time_cut self tc2) frames i cand count res.
Proof.
  intros H1 H2. induction frames as [|ts rest IH]; intros i cand count res; simpl.
  - reflexivity.
  - change (winners_of (set_time_cut self tc1) ts cand)
      with (winners_of (set_time_cut self tc2) ts cand).
    destruct (setitem res i _) as [r1|]; simpl; trivial.
    assert (Hp : forall w,
               prune rnd64 (set_time_cut self tc1) w cand count
               = prune rnd64 (set_time_cut self tc2) w cand count).
    { intros w. unfold prune. simpl.
      destruct (is_literal (bond_type self) "continuous"); trivial.
      destruct (is_literal (bond_type self) "intermittent"); trivial.
      unfold truthy in H1, H2.
      destruct tc1 as [q1|], tc2 as [q2|]; try rewrite H1; try rewrite H2; trivial. }
    rewrite Hp.
    destruct (prune rnd64 _ _ cand count) as [[c1 k1]|]; simpl; trivial.
    destruct (length c1 =? 0)%nat; trivial.
Qed.

Lemma tracked_run_falsy_time_cut (tc1 tc2 : option Q) (start stop : Z) :
  truthy tc1 = false -> truthy tc2 = false ->
  tracked_run rnd32 rnd64 (set_time_cut self tc1) start stop
  = tracked_run rnd32 rnd64 (set_time_cut self tc2) start stop.
Proof.
  intros H1 H2. unfold tracked_run.
  change (seek (set_time_cut self tc1) start) with (seek (set_time_cut self tc2) start).
  destruct (seek _ start) as [ts0|]; simpl; trivial.
  change (seed rnd64 (set_time_cut self tc1) ts0)
    with (seed rnd64 (set_time_cut self tc2) ts0).
  destruct (seed rnd64 _ ts0) as [cand|]; simpl; trivial.
  destruct (arange start stop (_skip self)) as [idx|]; simpl; trivial.
  rewrite H1, H2.
  change (traj_slice (set_time_cut self tc1) idx)
    with (traj_slice (set_time_cut self tc2) idx).
  now rewrite (loop_falsy_time_cut tc1 tc2 _ H1 H2).
Qed.

(** [run] looks at the analysis only through [_single_run], the planned
    windows, the time step and the solution. *)
Lemma run_loop_ext (s1 s2 : HydrogenBondAutoCorrel) :
  (forall start stop,
      _single_run rnd32 rnd64 s1 start stop = _single_run rnd32 rnd64 s2 start stop) ->
  forall windows master counter,
    run_loop rnd32 rnd64 s1 windows master counter
    = run_loop rnd32 rnd64 s2 windows master counter.
Proof.
  intros H windows. induction windows as [|[start stop] rest IH];
    intros master counter; simpl; trivial.
  rewrite H. destruct (_single_run rnd32 rnd64 s2 start stop) as [r|]; simpl; trivial.
  destruct (length r <=? length master)%nat; trivial.
Qed.

End Forgiveness.

Section Construction.

Variable rnd32 : Q -> Q.
Variable rnd64 : Q -> Q.
Variable deg2rad : Q -> Q.

(** [time_cut] is only stored by [__init__]. *)
Lemma init_time_cut (universe : Universe) (hydrogens acceptors donors : AtomGroup)
    (bt : PyStr) (excl : option (list Z * list Z))
    (angle_crit dist_crit sample_t : Q) (tc tc' : option Q) (nr ns : Z) (box : bool)
    (s : HydrogenBondAutoCorrel) :
  __init__ rnd64 deg2rad universe hydrogens acceptors donors bt excl
           angle_crit dist_crit sample_t tc nr ns box = Ok s ->
  __init__ rnd64 deg2rad universe hydrogens acceptors donors bt excl
           angle_crit dist_crit sample_t tc' nr ns box = Ok (set_time_cut s tc')
  /\ bond_type s = bt /\ time_cut s = tc.
Proof.
  unfold __init__.
  destruct (negb (sliceable universe && _)); [discriminate|].
  destruct (length_check_fails _ _ _); [discriminate|].
  destruct (match excl with Some (e0, e1) => _ | None => false end); [discriminate|].
  destruct (negb _); [discriminate|].
  destruct (_slice_traj _ _ _ _ _) as [[[starts stops] skip]|]; simpl; [|discriminate].
  intros H. injection H as <-. auto.
Qed.

(** A constructed analysis has a non-zero stride. *)
Lemma init_skip (universe : Universe) (hydrogens acceptors donors : AtomGroup)
    (bt : PyStr) (excl : option (list Z * list Z))
    (angle_crit dist_crit sample_t : Q) (tc : option Q) (nr ns : Z) (box : bool)
    (s : HydrogenBondAutoCorrel) :
  __init__ rnd64 deg2rad universe hydrogens acceptors donors bt excl
           angle_crit dist_crit sample_t tc nr ns box = Ok s ->
  _skip s <> 0%Z.
Proof.
  unfold __init__.
  destruct (negb (sliceable universe && _)); [discriminate|].
  destruct (length_check_fails _ _ _); [discriminate|].
  destruct (match excl with Some (e0, e1) => _ | None => false end); [discriminate|].
  destruct (negb _); [discriminate|].
  unfold _slice_traj.
  destruct (if Qeq_bool _ 0 then _ else _) as [req|]; simpl; [|discriminate].
  destruct (py_div _ _) as [step|]; simpl; [|discriminate].
  destruct (arange _ _ _) as [starts|]; simpl; [|discriminate].
  destruct (py_div req ns) as [skip|]; simpl; [|discriminate].
  intros H. injection H as <-. simpl.
  destruct (skip =? 0)%Z eqn:E; [discriminate|]. now apply Z.eqb_neq.
Qed.

(** C10.  In intermittent mode an analysis constructed with [time_cut = 0]
    behaves as one constructed with [time_cut = None]: every pass returns
    the same thing, the counter array is never created and the tracked
    pairs stay those of the seed; [run] raises or returns alike, with the
    same solution.  This holds for every string that reads ['intermittent'],
    whether or not it is the object of the literal. *)
Theorem zero_time_cut_is_no_time_cut (universe : Universe)
    (hydrogens acceptors donors : AtomGroup) (bt : PyStr)
    (excl : option (list Z * list Z))
    (angle_crit dist_crit sample_t : Q) (q : Q) (nr ns : Z) (box : bool)
    (s0 sN : HydrogenBondAutoCorrel) :
  chars bt = "intermittent"%string ->
  q == 0 ->
  __init__ rnd64 deg2rad universe hydrogens acceptors donors bt
           excl angle_crit dist_crit sample_t (Some q) nr ns box = Ok s0 ->
  __init__ rnd64 deg2rad universe hydrogens acceptors donors bt
           excl angle_crit dist_crit sample_t None nr ns box = Ok sN ->
  (forall start stop,
      _single_run rnd32 rnd64 s0 start stop = _single_run rnd32 rnd64 sN start stop /\
      forall n0 res cand cnt n,
        tracked_run rnd32 rnd64 s0 start stop = Ok (n0, (res, cand, cnt, n)) ->
        cnt = None /\
        exists ts0, seek s0 start = Ok ts0 /\ seed rnd64 s0 ts0 = Ok cand) /\
  (forall force,
      run rnd32 rnd64 s0 force
      = match run rnd32 rnd64 sN force with
        | Ok s => Ok (set_time_cut s (Some q))
        | Raise e => Raise e
        end).
Proof.
  intros Hchars Hq H0 HN.
  assert (Hpass : forall start stop,
    _single_run rnd32 rnd64 s0 start stop = _single_run rnd32 rnd64 sN start stop /\
    forall n0 res cand cnt n,
      tracked_run rnd32 rnd64 s0 start stop = Ok (n0, (res, cand, cnt, n)) ->
      cnt = None /\
      exists ts0, seek s0 start = Ok ts0 /\ seed rnd64 s0 ts0 = Ok cand);
    [intros start stop|].
  2: { split; [exact Hpass|]. intros force.
       destruct (@init_time_cut universe hydrogens acceptors donors _ excl angle_crit
                   dist_crit sample_t None (Some q) nr ns box sN HN) as (H0' & _ & _).
       rewrite H0 in H0'. injection H0' as E.
       subst s0. unfold run. simpl.
       destruct (is_not_None (results (solution sN)) && negb force); trivial.
       destruct (getitem (_starts sN) 0) as [start0|]; simpl; trivial.
       destruct (getitem (_stops sN) 0) as [stop0|]; simpl; trivial.
       destruct (arange start0 stop0 (_skip sN)) as [idx|]; simpl; trivial.
       rewrite (@run_loop_ext rnd32 rnd64 (set_time_cut sN (Some q)) sN
                  (fun start stop => proj1 (Hpass start stop))).
       destruct (run_loop _ _ sN _ _ _) as [[m c]|]; simpl; trivial. }
  assert (Hf : truthy (Some q) = false).
  { simpl. apply Qeq_bool_iff in Hq. now rewrite Hq. }
  destruct (@init_time_cut universe hydrogens acceptors donors _ excl angle_crit
              dist_crit sample_t None (Some q) nr ns box sN HN) as (H0' & Hbt & _).
  destruct (@init_time_cut universe hydrogens acceptors donors _ excl angle_crit
              dist_crit sample_t None None nr ns box sN HN) as (HN' & _ & _).
  rewrite H0 in H0'. injection H0' as ->.
  rewrite HN in HN'. injection HN' as HN'.
  split.
  - transitivity (_single_run rnd32 rnd64 (set_time_cut sN None) start stop);
      [|now rewrite <- HN'].
    unfold _single_run.
    now rewrite (@tracked_run_falsy_time_cut rnd32 rnd64 sN (Some q) None start stop
                   Hf eq_refl).
  - intros n0 res cand cnt n Ht. apply tracked_run_inv in Ht.
    destruct Ht as (ts0 & cand0 & idx & Hs & Hse & Hn & Ha & Hl).
    unfold initial_count in Hl.
    change (truthy (time_cut (set_time_cut sN (Some q)))) with (truthy (Some q)) in Hl.
    rewrite Hf in Hl.
    eapply loop_intermittent_state in Hl; trivial;
      [|change (bond_type (set_time_cut sN (Some q))) with (bond_type sN);
        rewrite Hbt; unfold is_literal; rewrite Hchars; apply andb_false_r].
    destruct Hl as [-> ->]. eauto.
Qed.

End Construction.

(** ** Running twice *)

Section Run.

Variable rnd32 : Q -> Q.
Variable rnd64 : Q -> Q.

(** A call of [run] that returns leaves [solution['results']] filled. *)
Lemma run_fills_results (self self' : HydrogenBondAutoCorrel) (force : bool) :
  run rnd32 rnd64 self force = Ok self' ->
  is_not_None (results (solution self')) = true.
Proof.
  unfold run.
  destruct (is_not_None (results (solution self)) && negb force) eqn:E.
  - intros H. injection H as <-. now apply andb_true_iff in E.
  - destruct (getitem (_starts self) 0) as [s0|]; simpl; [|discriminate].
    destruct (getitem (_stops self) 0) as [e0|]; simpl; [|discriminate].
    destruct (arange s0 e0 (_skip self)) as [idx|]; simpl; [|discriminate].
    destruct (run_loop _ _ _ _ _ _) as [[m c]|]; simpl; [|discriminate].
    intros H. injection H as <-. reflexivity.
Qed.

(** C8.  Once [solution['results']] is filled, [run] without [force]
    returns at once and leaves the whole object, hence the whole solution,
    as it is; so a second call of [run] without [force] changes nothing of
    what the first call left. *)
Theorem run_without_force_is_noop (self : HydrogenBondAutoCorrel) :
  (is_not_None (results (solution self)) = true ->
   run rnd32 rnd64 self false = Ok self) /\
  (forall force self',
      run rnd32 rnd64 self force = Ok self' ->
      run rnd32 rnd64 self' false = Ok self').
Proof.
  assert (Hnoop : forall s, is_not_None (results (solution s)) = true ->
                            run rnd32 rnd64 s false = Ok s).
  { intros s Hs. unfold run. now rewrite Hs. }
  split; [apply Hnoop|].
  intros force self' H. apply Hnoop. now apply run_fills_results in H.
Qed.

End Run.

(** ** Evaluation on concrete trajectories *)

Lemma exact_rounding_ok : Rounding exact_rounding.
Proof.
  split.
  - intros p q H. unfold exact_rounding. now rewrite !Qred_correct.
  - reflexivity.
  - reflexivity.
Qed.

Example decaying_constructed :
  analysis_of decaying "continuous" None = Ok (built decaying "continuous" None).
Proof. vm_compute. reflexivity. Qed.

Example other_analyses_constructed :
  analysis_of decaying "intermittent" None = Ok (built decaying "intermittent" None) /\
  analysis_of decaying "intermittent" (Some 2)
  = Ok (built decaying "intermittent" (Some 2)) /\
  analysis_of unbonded "continuous" None = Ok (built unbonded "continuous" None) /\
  analysis_of unbonded "intermittent" None = Ok (built unbonded "intermittent" None).
Proof. repeat split; vm_compute; reflexivity. Qed.

Example decaying_continuous_curve :
  _single_run exact_rounding exact_rounding (built decaying "continuous" None) 0 4
  = Ok [Fin 1; Fin (1 # 2); Fin 0; Fin 0].
Proof. vm_compute. reflexivity. Qed.

Example decaying_intermittent_curve :
  _single_run exact_rounding exact_rounding (built decaying "intermittent" None) 0 4
  = Ok [Fin 1; Fin (1 # 2); Fin 0; Fin (1 # 2)].
Proof. vm_compute. reflexivity. Qed.

Example unbonded_curve :
  _single_run exact_rounding exact_rounding (built unbonded "continuous" None) 0 3
  = Ok [NaN; NaN; NaN].
Proof. vm_compute. reflexivity. Qed.

(** *** Early termination (C1) *)

(** C1, counterexample.  In the continuous pass over [decaying] the tracked
    set is empty after 3 of the 4 frames, and the returned curve still has
    4 entries: it is not shorter than the nominal window length. *)
Lemma early_stop_not_truncated :
  exists res cnt r,
    tracked_run exact_rounding exact_rounding (built decaying "continuous" None) 0 4
    = Ok (2%nat, (res, [], cnt, 3%nat)) /\
    (3 < arange_len 0 4 1)%nat /\
    _single_run exact_rounding exact_rounding (built decaying "continuous" None) 0 4
    = Ok r /\
    ~ (length r < arange_len 0 4 1)%nat.
Proof.
  do 3 eexists. split; [vm_compute; reflexivity|].
  split; [vm_compute; lia|].
  split; [vm_compute; reflexivity|].
  vm_compute. lia.
Qed.

Lemma single_run_early_stop_keeps_length_witness :
  exists r,
    _single_run exact_rounding exact_rounding (built decaying "continuous" None) 0 4
    = Ok r /\
    length r = arange_len 0 4 1 /\
    forall j, (3 <= j < length r)%nat ->
              nth_error r j = Some (normalise exact_rounding 2 fzero).
Proof.
  apply (@single_run_early_stop_keeps_length exact_rounding exact_rounding
           (built decaying "continuous" None) 0 4 2
           [Fin 2; Fin 1; Fin 0; Fin 0] None 3).
  - vm_compute. reflexivity.
  - vm_compute. lia.
Defined.

(** *** A window without bonds (C7, C5, C9) *)

(** C7, counterexample.  The pass over [unbonded] has no bond at t=0; what
    it returns is neither an all-zero curve (a guarded division) nor a
    single entry at index 0: it is three [nan]. *)
Lemma no_bonds_not_guarded :
  seed exact_rounding (built unbonded "continuous" None) (frame_with []) = Ok [] /\
  exists r,
    _single_run exact_rounding exact_rounding (built unbonded "continuous" None) 0 3
    = Ok r /\
    ~ (Forall (fun x => feq x (Fin 0)) r \/ (length r <= 1)%nat).
Proof.
  split; [vm_compute; reflexivity|].
  eexists. split; [vm_compute; reflexivity|].
  intros [H|H].
  - inversion H as [|x l Hx _]. exact Hx.
  - simpl in H. lia.
Qed.

Lemma single_run_no_bonds_all_nan_witness :
  _single_run exact_rounding exact_rounding (built unbonded "continuous" None) 0 3
  = Ok (repeat NaN (arange_len 0 3 1)) /\
  exists res cnt n,
    tracked_run exact_rounding exact_rounding (built unbonded "continuous" None) 0 3
    = Ok (0%nat, (res, [], cnt, n)) /\
    n = (if (arange_len 0 3 1 =? 0)%nat then 0 else 1)%nat.
Proof.
  apply (@single_run_no_bonds_all_nan exact_rounding exact_rounding
           (built unbonded "continuous" None) 0 3 (frame_with [])).
  - reflexivity.
  - vm_compute. reflexivity.
  - vm_compute. reflexivity.
  - discriminate.
Defined.

(** C5, counterexample.  The continuous pass over [unbonded] returns a
    curve with an entry that is not in [0, 1]. *)
Lemma continuous_curve_outside_unit_interval :
  is_literal (bond_type (built unbonded "continuous" None)) "continuous" = true /\
  exists r,
    _single_run exact_rounding exact_rounding (built unbonded "continuous" None) 0 3
    = Ok r /\
    ~ Forall (fun x => fle (Fin 0) x /\ fle x (Fin 1)) r.
Proof.
  split; [reflexivity|].
  eexists. split; [vm_compute; reflexivity|].
  intros H. inversion H as [|x l [Hx _] _]. exact Hx.
Qed.

Lemma continuous_curve_nonincreasing_witness :
  exists r,
    _single_run exact_rounding exact_rounding (built decaying "continuous" None) 0 4
    = Ok r /\
    Forall (fun x => fle (Fin 0) x /\ fle x (Fin 1)) r /\
    forall j k x y, (j <= k)%nat ->
                    nth_error r j = Some x -> nth_error r k = Some y -> fle y x.
Proof.
  exists [Fin 1; Fin (1 # 2); Fin 0; Fin 0]. split; [vm_compute; reflexivity|].
  apply (@continuous_curve_nonincreasing exact_rounding exact_rounding exact_rounding_ok
           (built decaying "continuous" None) 0 4 2
           ([Fin 2; Fin 1; Fin 0; Fin 0], [], None, 3%nat)).
  - reflexivity.
  - vm_compute. reflexivity.
  - discriminate.
  - vm_compute. reflexivity.
Defined.

(** C9, counterexample.  On [unbonded] both definitions return [nan] at
    index 0, and [nan >= nan] does not hold. *)
Lemma intermittent_not_above_continuous :
  exists rc ri x y,
    _single_run exact_rounding exact_rounding (built unbonded "continuous" None) 0 3
    = Ok rc /\
    _single_run exact_rounding exact_rounding (built unbonded "intermittent" None) 0 3
    = Ok ri /\
    nth_error rc 0 = Some x /\ nth_error ri 0 = Some y /\ ~ fle x y.
Proof.
  do 4 eexists. split; [vm_compute; reflexivity|].
  split; [vm_compute; reflexivity|].
  split; [reflexivity|]. split; [reflexivity|].
  intros H. exact H.
Qed.

Lemma intermittent_curve_dominates_continuous_witness :
  exists rc ri,
    _single_run exact_rounding exact_rounding (built decaying "continuous" None) 0 4
    = Ok rc /\
    _single_run exact_rounding exact_rounding (built decaying "intermittent" None) 0 4
    = Ok ri /\
    length rc = length ri /\
    forall j x y, nth_error rc j = Some x -> nth_error ri j = Some y -> fle x y.
Proof.
  exists [Fin 1; Fin (1 # 2); Fin 0; Fin 0], [Fin 1; Fin (1 # 2); Fin 0; Fin (1 # 2)].
  split; [vm_compute; reflexivity|]. split; [vm_compute; reflexivity|].
  apply (@intermittent_curve_dominates_continuous exact_rounding exact_rounding
           exact_rounding_ok (built decaying "continuous" None) None 0 4 2
           ([Fin 2; Fin 1; Fin 0; Fin 0], [], None, 3%nat)).
  - reflexivity.
  - vm_compute. reflexivity.
  - discriminate.
  - vm_compute. reflexivity.
  - vm_compute. reflexivity.
Defined.

(** *** The value at offset 0 (C6) *)

Lemma single_run_starts_at_one_witness :
  exists x,
    nth_error [Fin 1; Fin (1 # 2); Fin 0; Fin 0] 0 = Some x /\ feq x (Fin 1).
Proof.
  apply (@single_run_starts_at_one exact_rounding exact_rounding
           (built decaying "continuous" None) 0 4 (frame_with [(0, 0); (1, 1)]%nat) 2
           ([Fin 2; Fin 1; Fin 0; Fin 0], [], None, 3%nat)
           [Fin 1; Fin (1 # 2); Fin 0; Fin 0] exact_rounding_ok).
  - vm_compute. discriminate.
  - vm_compute. reflexivity.
  - intros i j. apply Qeq_refl.
  - vm_compute. reflexivity.
  - discriminate.
  - vm_compute. lia.
  - vm_compute. reflexivity.
Defined.

(** *** The forgiveness window (C4, C10) *)

(** C4, counterexample.  With [time_cut = 2], stride 1 and [dt = 1], a
    candidate that has failed once before and fails again gets the counter
    2: the counter does not exceed [time_cut], and the candidate is dropped
    all the same. *)
Lemma counter_equal_to_time_cut_is_dropped :
  time_cut (built decaying "intermittent" (Some 2)) = Some 2 /\
  exists x,
    update_count exact_rounding (built decaying "intermittent" (Some 2))
                 (winners_of (built decaying "intermittent" (Some 2)) (frame_with [])
                             [(0, 0)]%nat) [1]
    = [x] /\
    x == 2 /\ ~ 2 < x /\
    prune exact_rounding (built decaying "intermittent" (Some 2))
          (winners_of (built decaying "intermittent" (Some 2)) (frame_with [])
                      [(0, 0)]%nat) [(0, 0)]%nat (Some [1])
    = Ok ([], Some []).
Proof.
  split; [reflexivity|].
  eexists. split; [vm_compute; reflexivity|].
  split; [reflexivity|]. split; [|vm_compute; reflexivity].
  intros H. discriminate H.
Qed.

Lemma forgiveness_window_tracking_witness :
  tracked_run exact_rounding exact_rounding
              (built decaying "intermittent" (Some 2)) 0 4
  = Ok (2%nat, ([Fin 2; Fin 1; Fin 0; Fin 1], [(0, 0)]%nat, Some [0], 4%nat)) /\
  exists ts0 cand0 idx,
    seek (built decaying "intermittent" (Some 2)) 0 = Ok ts0 /\
    seed exact_rounding (built decaying "intermittent" (Some 2)) ts0 = Ok cand0 /\
    2%nat = length cand0 /\
    arange 0 4 (_skip (built decaying "intermittent" (Some 2))) = Ok idx /\
    let frames := traj_slice (built decaying "intermittent" (Some 2)) idx in
    let after k :=
      loop exact_rounding exact_rounding (built decaying "intermittent" (Some 2))
           (firstn k frames) 0 cand0 (Some (repeat 0 2%nat))
           (repeat fzero (length idx)) in
    after (length frames)
    = Ok ([Fin 2; Fin 1; Fin 0; Fin 1], [(0, 0)]%nat, Some [0], 4%nat) /\
    forall k, (k < 4)%nat ->
      exists ts resk candk ck res1 cand1 c1,
        nth_error frames k = Some ts /\
        after k = Ok (resk, candk, Some ck, k) /\
        length ck = length candk /\
        after (length frames)
        = loop exact_rounding exact_rounding (built decaying "intermittent" (Some 2))
               (skipn k frames) k candk (Some ck) resk /\
        after (S k) = Ok (res1, cand1, Some c1, S k) /\
        nth_error [Fin 2; Fin 1; Fin 0; Fin 1] k
        = Some (of_nat exact_rounding
                       (bsum (winners_of (built decaying "intermittent" (Some 2))
                                         ts candk))) /\
        (forall j w x,
            nth_error (winners_of (built decaying "intermittent" (Some 2)) ts candk) j
            = Some w ->
            nth_error ck j = Some x ->
            nth_error (update_count exact_rounding
                         (built decaying "intermittent" (Some 2))
                         (winners_of (built decaying "intermittent" (Some 2)) ts candk)
                         ck) j
            = Some (if w then 0
                    else exact_rounding
                           (x + exact_rounding
                                  (inject_Z (_skip (built decaying "intermittent"
                                                          (Some 2)))
                                   * dt (u (built decaying "intermittent"
                                                  (Some 2))))))) /\
        (forall p x,
            In (p, x) (combine cand1 c1) <->
            In (p, x)
               (combine candk
                  (update_count exact_rounding
                     (built decaying "intermittent" (Some 2))
                     (winners_of (built decaying "intermittent" (Some 2)) ts candk)
                     ck))
            /\ x < 2) /\
        (forall m resm candm cntm nm,
            (S k <= m)%nat -> after m = Ok (resm, candm, cntm, nm) ->
            subseq candm cand1).
Proof.
  split; [vm_compute; reflexivity|].
  apply (@forgiveness_window_tracking exact_rounding exact_rounding
           (built decaying "intermittent" (Some 2)) 0 4 2 2
           [Fin 2; Fin 1; Fin 0; Fin 1] [(0, 0)]%nat (Some [0]) 4).
  - reflexivity.
  - reflexivity.
  - discriminate.
  - vm_compute. reflexivity.
Defined.

Lemma zero_time_cut_is_no_time_cut_witness :
  _single_run exact_rounding exact_rounding (built decaying "intermittent" (Some 0)) 0 4
  = _single_run exact_rounding exact_rounding (built decaying "intermittent" None) 0 4 /\
  forall n0 res cand cnt n,
    tracked_run exact_rounding exact_rounding
                (built decaying "intermittent" (Some 0)) 0 4
    = Ok (n0, (res, cand, cnt, n)) ->
    cnt = None /\
    exists ts0, seek (built decaying "intermittent" (Some 0)) 0 = Ok ts0 /\
                seed exact_rounding (built decaying "intermittent" (Some 0)) ts0 = Ok cand.
Proof.
  apply (proj1 (@zero_time_cut_is_no_time_cut exact_rounding exact_rounding
                  deg2rad_approx (universe_of decaying) [0; 1]%nat [2; 3]%nat
                  [4; 5]%nat (literal "intermittent") None 130 3 4 0 1 4 true
                  (built decaying "intermittent" (Some 0))
                  (built decaying "intermittent" None)
                  eq_refl (Qeq_refl 0) eq_refl eq_refl) 0%Z 4%Z).
Defined.

(** *** Running twice (C8) *)

Lemma run_without_force_is_noop_witness :
  exists s1,
    run exact_rounding exact_rounding (built decaying "continuous" None) false = Ok s1 /\
    results (solution s1) = Some [Fin 1; Fin (1 # 2); Fin 0; Fin 0] /\
    run exact_rounding exact_rounding s1 false = Ok s1.
Proof.
  eexists. split; [vm_compute; reflexivity|]. split; [reflexivity|].
  apply (proj2 (run_without_force_is_noop exact_rounding exact_rounding
                  (built decaying "continuous" None)) false).
  vm_compute. reflexivity.
Defined.

(** *** Construction with selections of different lengths (C2) *)

(** The length test raises exactly when the hydrogens and the acceptors
    differ in length while the acceptors and the donors agree. *)
Lemma length_check_fails_iff (hydrogens acceptors donors : AtomGroup) :
  length_check_fails hydrogens acceptors donors = true <->
  length hydrogens <> length acceptors /\ length acceptors = length donors.
Proof.
  unfold length_check_fails.
  rewrite andb_true_iff, negb_true_iff, Nat.eqb_neq, Nat.eqb_eq. tauto.
Qed.

(** C2, the code at a failing input.  Two hydrogens, two acceptors and
    three donors: no exception is raised, an object is constructed. *)
Theorem unequal_selections_are_accepted :
  exists s,
    __init__ exact_rounding deg2rad_approx (universe_of decaying)
             [0; 1]%nat [2; 3]%nat [4; 5; 6]%nat (literal "continuous") None 130 3 4 None 1 4 true
    = Ok s.
Proof. eexists. vm_compute. reflexivity. Qed.

(** With one donor only the object is constructed too, and the pass over
    the trajectory then fails on [self.d.positions[hidx]]. *)
Example short_donors_raise_later :
  exists s,
    __init__ exact_rounding deg2rad_approx (universe_of decaying)
             [0; 1]%nat [2; 3]%nat [4]%nat (literal "continuous") None 130 3 4 None 1 4 true
    = Ok s /\
    _single_run exact_rounding exact_rounding s 0 4 = Raise IndexError.
Proof. eexists. split; vm_compute; reflexivity. Qed.

(** *** The window planner (C3) *)

(** C3, the code at a failing input.  Ten frames and three runs: the
    spacing is [10 / 3 = 3] and [numpy.arange(0, 10, 3)] has four entries,
    so four windows are planned. *)
Theorem three_runs_give_four_windows :
  _slice_traj exact_rounding ten_frames 3 5 5
  = Ok ([0; 3; 6; 9]%Z, [5; 8; 10; 10]%Z, 1%Z).
Proof. vm_compute. reflexivity. Qed.

(** For [1 <= nruns <= numframes] the planner starts a window at every
    multiple of [numframes / nruns] below [numframes]; there are at least
    [nruns] of them, and there can be more. *)
Lemma slice_traj_starts (rnd64 : Q -> Q) (universe : Universe) (nruns nsamples : Z)
    (sample_time : Q) (starts stops : list Z) (skip : Z) :
  let F := Z.of_nat (length (trajectory universe)) in
  (1 <= nruns <= F)%Z ->
  _slice_traj rnd64 universe nruns nsamples sample_time = Ok (starts, stops, skip) ->
  starts = map (fun k => (0 + Z.of_nat k * (F / nruns))%Z)
               (seq 0 (arange_len 0 F (F / nruns))) /\
  length stops = length starts /\
  (Z.to_nat nruns <= length starts)%nat.
Proof.
  intros F HR. unfold _slice_traj.
  destruct (if Qeq_bool _ 0 then _ else _) as [req|]; simpl; [|discriminate].
  fold F. destruct (F <? nruns)%Z eqn:E; [apply Z.ltb_lt in E; lia|].
  assert (Hstep : (1 <= F / nruns)%Z).
  { apply Z.div_le_lower_bound; lia. }
  unfold py_div. destruct (nruns =? 0)%Z eqn:E0; [apply Z.eqb_eq in E0; lia|]. simpl.
  unfold arange. destruct (F / nruns =? 0)%Z eqn:E1; [apply Z.eqb_eq in E1; lia|]. simpl.
  destruct (nsamples =? 0)%Z; simpl; [discriminate|].
  intros H. injection H as <- <- _.
  split; [reflexivity|]. split; [now rewrite length_map|].
  rewrite length_map, length_seq. unfold arange_len.
  assert (H1 : (nruns * (F / nruns) <= F)%Z) by (apply Z.mul_div_le; lia).
  assert (H2 : ((0 - F) / (F / nruns) <= - nruns)%Z).
  { apply Z.div_le_upper_bound; nia. }
  apply Z2Nat.inj_le; lia.
Qed.

(** * Further properties *)

(** ** The planned windows *)

Section Planner.

Variable rnd64 : Q -> Q.
Variable deg2rad : Q -> Q.

(** What a successful [_slice_traj] has computed. *)
Lemma slice_traj_inv (universe : Universe) (nr ns : Z) (st : Q)
    (starts stops : list Z) (skip : Z) :
  _slice_traj rnd64 universe nr ns st = Ok (starts, stops, skip) ->
  let F := Z.of_nat (length (trajectory universe)) in
  let req := py_int (rnd64 (st / dt universe)) in
  let numruns := if (F <? nr)%Z then F else nr in
  numruns <> 0%Z /\ ns <> 0%Z /\ (F / numruns <> 0)%Z /\
  starts = map (fun k => (0 + Z.of_nat k * (F / numruns))%Z)
               (seq 0 (arange_len 0 F (F / numruns))) /\
  stops = map (fun s => clip (s + req) 0 F) starts /\
  skip = (if (req / ns =? 0)%Z then 1%Z else (req / ns)%Z).
Proof.
  intros H F req numruns. unfold _slice_traj in H.
  destruct (Qeq_bool (dt universe) 0); simpl in H; [discriminate|].
  fold F in H. fold numruns in H. fold req in H.
  unfold py_div in H.
  destruct (numruns =? 0)%Z eqn:E1; simpl in H; [discriminate|].
  unfold arange in H.
  destruct (F / numruns =? 0)%Z eqn:E2; simpl in H; [discriminate|].
  destruct (ns =? 0)%Z eqn:E3; simpl in H; [discriminate|].
  injection H as <- <- <-.
  apply Z.eqb_neq in E1, E2, E3. repeat split; trivial.
Qed.

(** What a successful [__init__] has checked and stored. *)
Lemma init_inv (universe : Universe) (hydrogens acceptors donors : AtomGroup)
    (bt : PyStr) (excl : option (list Z * list Z))
    (angle_crit dist_crit sample_t : Q) (tc : option Q) (nr ns : Z) (box : bool)
    (self : HydrogenBondAutoCorrel) :
  __init__ rnd64 deg2rad universe hydrogens acceptors donors bt excl
           angle_crit dist_crit sample_t tc nr ns box = Ok self ->
  trajectory universe <> [] /\
  (chars bt = "continuous"%string \/ chars bt = "intermittent"%string) /\
  match excl with Some (e0, e1) => length e0 = length e1 | None => True end /\
  exists starts stops skip,
    _slice_traj rnd64 universe nr ns sample_t = Ok (starts, stops, skip) /\
    self = {| u := universe; h := hydrogens; a := acceptors; d := donors;
              exclusions := excl; bond_type := bt;
              a_crit := deg2rad angle_crit; d_crit := dist_crit; pbc := box;
              sample_time := sample_t; nruns := nr; nsamples := ns;
              _starts := starts; _stops := stops; _skip := skip;
              time_cut := tc;
              solution := {| results := None; time := None; fit := None;
                             tau := None; estimate := None |} |}.
Proof.
  unfold __init__.
  destruct (sliceable universe); simpl; [|discriminate].
  destruct (trajectory universe) as [|f fs] eqn:Et; simpl; [discriminate|].
  destruct (length_check_fails _ _ _); [discriminate|].
  destruct (match excl with Some (e0, e1) => negb _ | None => false end) eqn:Ee;
    [discriminate|].
  destruct (String.eqb (chars bt) "continuous") eqn:Ec; simpl.
  - destruct (_slice_traj _ _ _ _ _) as [[[starts stops] skip]|]; simpl; [|discriminate].
    intros H. injection H as <-. apply String.eqb_eq in Ec.
    split; [discriminate|]. split; [auto|]. split.
    + destruct excl as [[e0 e1]|]; trivial.
      apply negb_false_iff in Ee. now apply Nat.eqb_eq.
    + eauto.
  - destruct (String.eqb (chars bt) "intermittent") eqn:Ei; simpl; [|discriminate].
    destruct (_slice_traj _ _ _ _ _) as [[[starts stops] skip]|]; simpl; [|discriminate].
    intros H. injection H as <-. apply String.eqb_eq in Ei.
    split; [discriminate|]. split; [auto|]. split.
    + destruct excl as [[e0 e1]|]; trivial.
      apply negb_false_iff in Ee. now apply Nat.eqb_eq.
    + eauto.
Qed.

(** The entries of [numpy.arange(0, F, step)] lie in [0, F). *)
Lemma arange_entries (F step : Z) (k : nat) :
  (0 <= F)%Z -> step <> 0%Z -> (k < arange_len 0 F step)%nat ->
  (0 < step /\ 0 <= 0 + Z.of_nat k * step < F)%Z.
Proof.
  unfold arange_len. intros HF Hs Hk.
  assert (Hc : (Z.of_nat k < - ((0 - F) / step))%Z) by lia.
  destruct (Z_lt_ge_dec 0 step) as [Hpos|Hneg].
  - split; trivial.
    pose proof (Z.div_mod (0 - F) step Hs) as Hdm.
    pose proof (Z.mod_pos_bound (0 - F) step Hpos) as Hm.
    nia.
  - exfalso. assert (Hq : (0 <= (0 - F) / step)%Z).
    { rewrite <- (Z.div_opp_opp (0 - F) step) by lia.
      replace (- (0 - F))%Z with F by lia. apply Z.div_pos; lia. }
    lia.
Qed.

(** X1.  Every window planned by a successful construction lies inside the
    trajectory: the start frames are in [0, numframes), the stop frames in
    [0, numframes], there is a stop for every start, and the stride is not
    zero. *)
Theorem init_windows_inside_trajectory (universe : Universe)
    (hydrogens acceptors donors : AtomGroup)
    (bt : PyStr) (excl : option (list Z * list Z))
    (angle_crit dist_crit sample_t : Q) (tc : option Q) (nr ns : Z) (box : bool)
    (self : HydrogenBondAutoCorrel) :
  __init__ rnd64 deg2rad universe hydrogens acceptors donors bt excl
           angle_crit dist_crit sample_t tc nr ns box = Ok self ->
  let F := Z.of_nat (length (trajectory (u self))) in
  length (_stops self) = length (_starts self) /\
  Forall (fun s => (0 <= s < F)%Z) (_starts self) /\
  Forall (fun e => (0 <= e <= F)%Z) (_stops self) /\
  _skip self <> 0%Z.
Proof.
  intros H. apply init_inv in H.
  destruct H as (_ & _ & _ & starts & stops & skip & Hs & ->). simpl.
  apply slice_traj_inv in Hs. destruct Hs as (_ & Hns & Hstep & -> & -> & ->).
  split; [now rewrite length_map|]. split; [|split].
  - apply Forall_forall. intros s Hin. apply in_map_iff in Hin.
    destruct Hin as (k & <- & Hk). apply in_seq in Hk.
    apply arange_entries; lia.
  - apply Forall_forall. intros e Hin. apply in_map_iff in Hin.
    destruct Hin as (s & <- & _). unfold clip. lia.
  - destruct (_ =? 0)%Z eqn:E; [discriminate|]. now apply Z.eqb_neq.
Qed.

(** X2.  When more runs are asked for than the trajectory has frames, the
    planner starts one window at every frame. *)
Theorem slice_traj_clamps_nruns (universe : Universe) (nr ns : Z) (st : Q)
    (starts stops : list Z) (skip : Z) :
  (Z.of_nat (length (trajectory universe)) < nr)%Z ->
  _slice_traj rnd64 universe nr ns st = Ok (starts, stops, skip) ->
  starts = map Z.of_nat (seq 0 (length (trajectory universe))).
Proof.
  intros Hlt H. apply slice_traj_inv in H. simpl in H.
  apply Z.ltb_lt in Hlt. rewrite Hlt in H.
  destruct H as (HF & _ & _ & -> & _).
  set (F := Z.of_nat (length (trajectory universe))) in *.
  rewrite Z.div_same by trivial.
  replace (arange_len 0 F 1) with (length (trajectory universe)).
  - apply map_ext. intros k. lia.
  - unfold arange_len. rewrite Z.div_1_r. unfold F. lia.
Qed.

(** X3.  When more samples are asked for than the requested frames
    ([0 <= req_frames < nsamples]), the stride falls back to 1. *)
Theorem slice_traj_stride_fallback (universe : Universe) (nr ns : Z) (st : Q)
    (starts stops : list Z) (skip : Z) :
  (0 <= py_int (rnd64 (st / dt universe)) < ns)%Z ->
  _slice_traj rnd64 universe nr ns st = Ok (starts, stops, skip) ->
  skip = 1%Z.
Proof.
  intros Hreq H. apply slice_traj_inv in H. simpl in H.
  destruct H as (_ & _ & _ & _ & _ & ->).
  now rewrite Z.div_small.
Qed.

Lemma slice_traj_zero (universe : Universe) (nr ns : Z) (st : Q) :
  trajectory universe <> [] -> nr = 0%Z \/ ns = 0%Z ->
  _slice_traj rnd64 universe nr ns st = Raise ZeroDivisionError.
Proof.
  intros Hne Hz. unfold _slice_traj.
  destruct (Qeq_bool (dt universe) 0); [reflexivity|].
  set (F := Z.of_nat (length (trajectory universe))).
  assert (HF : (1 <= F)%Z).
  { unfold F. destruct (trajectory universe); [contradiction | simpl length; lia]. }
  cbv beta iota zeta. unfold bind at 1. unfold py_div.
  destruct ((if (F <? nr)%Z then F else nr) =? 0)%Z eqn:E1; [reflexivity|].
  unfold bind at 1. unfold arange.
  destruct (F / (if (F <? nr)%Z then F else nr) =? 0)%Z; [reflexivity|].
  unfold bind at 1.
  destruct (ns =? 0)%Z eqn:E3; [reflexivity|].
  exfalso. apply Z.eqb_neq in E1, E3. destruct Hz as [-> | ->]; [|lia].
  destruct (F <? 0)%Z eqn:E; [apply Z.ltb_lt in E; lia | lia].
Qed.

(** X4.  With [nruns = 0] or [nsamples = 0] the construction passes its
    four checks and then raises [ZeroDivisionError] in [_slice_traj]; no
    [ValueError] names the argument. *)
Theorem init_zero_runs_or_samples (universe : Universe)
    (hydrogens acceptors donors : AtomGroup)
    (bt : PyStr) (excl : option (list Z * list Z))
    (angle_crit dist_crit sample_t : Q) (tc : option Q) (nr ns : Z) (box : bool) :
  sliceable universe = true -> trajectory universe <> [] ->
  length_check_fails hydrogens acceptors donors = false ->
  match excl with Some (e0, e1) => length e0 = length e1 | None => True end ->
  chars bt = "continuous"%string \/ chars bt = "intermittent"%string ->
  nr = 0%Z \/ ns = 0%Z ->
  __init__ rnd64 deg2rad universe hydrogens acceptors donors bt excl
           angle_crit dist_crit sample_t tc nr ns box = Raise ZeroDivisionError.
Proof.
  intros Hsl Hne Hlen Hex Hbt Hz. unfold __init__. rewrite Hsl, Hlen.
  assert (Hn : (length (trajectory universe) =? 0)%nat = false).
  { apply Nat.eqb_neq. destruct (trajectory universe); [contradiction | discriminate]. }
  rewrite Hn.
  assert (He : match excl with
               | Some (e0, e1) => negb (length e0 =? length e1)%nat
               | None => false
               end = false).
  { destruct excl as [[e0 e1]|]; trivial. apply negb_false_iff. now apply Nat.eqb_eq. }
  rewrite He.
  assert (Hb : negb (String.eqb (chars bt) "continuous"
                     || String.eqb (chars bt) "intermittent") = false).
  { destruct Hbt as [E | E]; rewrite E; reflexivity. }
  rewrite Hb. cbv beta iota.
  now rewrite (@slice_traj_zero universe nr ns sample_t Hne Hz).
Qed.

End Planner.

(** ** The bonds at t=0 *)

Lemma pair_eqb_eq (p q : nat * nat) : pair_eqb p q = true <-> p = q.
Proof.
  unfold pair_eqb. destruct p as [i j], q as [i' j']. simpl.
  rewrite andb_true_iff, !Nat.eqb_eq. split.
  - intros [-> ->]. reflexivity.
  - intros H. injection H as -> ->. auto.
Qed.

Lemma all_pairs_In (nh na : nat) (p : nat * nat) :
  In p (all_pairs nh na) <-> (fst p < nh)%nat /\ (snd p < na)%nat.
Proof.
  unfold all_pairs. rewrite in_flat_map. split.
  - intros (i & Hi & Hp). apply in_map_iff in Hp. destruct Hp as (j & <- & Hj).
    apply in_seq in Hi, Hj. simpl. lia.
  - intros [Hi Hj]. exists (fst p). split; [apply in_seq; lia|].
    apply in_map_iff. exists (snd p). split; [now destruct p | apply in_seq; lia].
Qed.

Lemma all_pairs_NoDup (nh na : nat) : NoDup (all_pairs nh na).
Proof.
  unfold all_pairs. generalize (seq_NoDup nh 0). generalize (seq 0 nh) as rows.
  induction rows as [|i rows IH]; intros Hnd; simpl; [constructor|].
  inversion Hnd as [|? ? Hi Hrows]; subst.
  apply NoDup_app.
  - generalize (seq_NoDup na 0). generalize (seq 0 na) as cols.
    induction cols as [|j cols IHc]; intros Hc; simpl; [constructor|].
    inversion Hc as [|? ? Hj Hcols]; subst. constructor; auto.
    intros Hin. apply in_map_iff in Hin. destruct Hin as (j' & E & Hj').
    injection E as ->. contradiction.
  - auto.
  - intros p Hp Hq. apply in_map_iff in Hp. destruct Hp as (j & <- & _).
    apply in_flat_map in Hq. destruct Hq as (i' & Hi' & Hq).
    apply in_map_iff in Hq. destruct Hq as (j' & E & _).
    injection E as -> _. contradiction.
Qed.

Lemma norm_index_nonneg (n : nat) (i : Z) (k : nat) :
  (0 <= i)%Z -> norm_index n i = Ok k -> k = Z.to_nat i.
Proof.
  unfold norm_index. intros Hi.
  destruct ((0 <=? i) && (i <? Z.of_nat n))%Z.
  - intros H. now injection H.
  - destruct ((- Z.of_nat n <=? i) && (i <? 0))%Z eqn:E; [|discriminate].
    apply andb_true_iff in E. destruct E as [_ E]. apply Z.ltb_lt in E. lia.
Qed.

Lemma norm_index_in_range (n : nat) (i : Z) :
  index_in_range n i -> exists k, norm_index n i = Ok k.
Proof.
  unfold index_in_range, norm_index. intros [Hlo Hhi].
  destruct ((0 <=? i) && (i <? Z.of_nat n))%Z eqn:E1; [eauto|].
  destruct ((- Z.of_nat n <=? i) && (i <? 0))%Z eqn:E2; [eauto|].
  exfalso. apply andb_false_iff in E1, E2.
  rewrite Z.leb_gt, Z.ltb_ge in E1. rewrite Z.leb_gt, Z.ltb_ge in E2. lia.
Qed.

Lemma fancy_index_raises (nh na : nat) (e0 e1 : list Z) (e : exn) :
  fancy_index nh na e0 e1 = Raise e -> e = IndexError.
Proof.
  revert e1. induction e0 as [|i e0 IH]; intros [|j e1] H; simpl in H;
    try discriminate; try (now injection H).
  unfold norm_index in H.
  destruct ((0 <=? i) && (i <? Z.of_nat nh))%Z;
    [|destruct ((- Z.of_nat nh <=? i) && (i <? 0))%Z]; simpl in H;
    try (now injection H).
  all: destruct ((0 <=? j) && (j <? Z.of_nat na))%Z;
    [|destruct ((- Z.of_nat na <=? j) && (j <? 0))%Z]; simpl in H;
    try (now injection H).
  all: destruct (fancy_index nh na e0 e1) eqn:E; simpl in H; try discriminate;
    injection H as <-; eapply IH; eauto.
Qed.

Lemma fancy_index_in_range (nh na : nat) (e0 e1 : list Z) :
  length e0 = length e1 ->
  Forall (index_in_range nh) e0 -> Forall (index_in_range na) e1 ->
  exists excl, fancy_index nh na e0 e1 = Ok excl.
Proof.
  revert e1. induction e0 as [|i e0 IH]; intros [|j e1] Hlen H0 H1;
    simpl in *; try discriminate.
  - eauto.
  - inversion H0 as [|? ? Hi H0']; subst. inversion H1 as [|? ? Hj H1']; subst.
    destruct (norm_index_in_range Hi) as [i' ->].
    destruct (norm_index_in_range Hj) as [j' ->]. simpl.
    destruct (IH e1) as [excl ->]; auto. simpl. eauto.
Qed.

(** The pairs addressed at the same position of the two exclusion arrays
    are in the list [fancy_index] computes. *)
Lemma fancy_index_nth (nh na : nat) (e0 e1 : list Z) (excl : list (nat * nat)) :
  fancy_index nh na e0 e1 = Ok excl ->
  forall k i j, nth_error e0 k = Some i -> nth_error e1 k = Some j ->
    exists i' j', norm_index nh i = Ok i' /\ norm_index na j = Ok j' /\
                  In (i', j') excl.
Proof.
  revert e1 excl. induction e0 as [|i0 e0 IH]; intros [|j0 e1] excl H k i j Hi Hj;
    simpl in H; try discriminate; try (destruct k; discriminate).
  destruct (norm_index nh i0) as [i0'|] eqn:E0; simpl in H; [|discriminate].
  destruct (norm_index na j0) as [j0'|] eqn:E1; simpl in H; [|discriminate].
  destruct (fancy_index nh na e0 e1) as [rest|] eqn:Er; simpl in H; [|discriminate].
  injection H as <-. destruct k as [|k]; simpl in Hi, Hj.
  - injection Hi as <-. injection Hj as <-. exists i0', j0'. simpl. auto.
  - destruct (IH e1 rest Er k i j Hi Hj) as (i' & j' & H1 & H2 & H3).
    exists i', j'. simpl. auto.
Qed.

Section SeedFacts.

Variable rnd64 : Q -> Q.
Variable self : HydrogenBondAutoCorrel.

Lemma seed_inv (ts : Frame) (cand : list (nat * nat)) :
  seed rnd64 self ts = Ok cand ->
  exists excl,
    match exclusions self with
    | Some (e0, e1) => fancy_index (length (h self)) (length (a self)) e0 e1 = Ok excl
    | None => excl = []
    end /\
    cand = filter (fun p => Qltb (a_crit self)
                                 (calc_angles ts (pbc self) (fst p) (snd p)))
             (filter (fun p => Qltb (excluded_distance rnd64 self ts excl p) (d_crit self))
                     (all_pairs (length (h self)) (length (a self)))) /\
    forall p, In p cand -> (fst p < length (d self))%nat.
Proof.
  unfold seed. intros H.
  destruct (exclusions self) as [[e0 e1]|].
  - destruct (fancy_index _ _ e0 e1) as [excl|]; simpl in H; [|discriminate].
    destruct (forallb _ _) eqn:Ef; [|discriminate].
    injection H as <-. exists excl. repeat split.
    intros p Hp. apply filter_In in Hp. destruct Hp as [Hp _].
    rewrite forallb_forall in Ef. apply Ef in Hp. now apply Nat.ltb_lt.
  - simpl in H. destruct (forallb _ _) eqn:Ef; [|discriminate].
    injection H as <-. exists []. repeat split.
    intros p Hp. apply filter_In in Hp. destruct Hp as [Hp _].
    rewrite forallb_forall in Ef. apply Ef in Hp. now apply Nat.ltb_lt.
Qed.

(** X5.  The bonds found at t=0 are pairwise distinct, each one indexes an
    existing hydrogen, acceptor and donor, and its angle at that frame is
    above [a_crit]. *)
Theorem seed_pairs_distinct_and_indexed (ts : Frame) (cand : list (nat * nat)) :
  seed rnd64 self ts = Ok cand ->
  NoDup cand /\
  forall p, In p cand ->
    (fst p < length (h self))%nat /\ (snd p < length (a self))%nat /\
    (fst p < length (d self))%nat /\
    a_crit self < calc_angles ts (pbc self) (fst p) (snd p).
Proof.
  intros H. apply seed_inv in H. destruct H as (excl & _ & Hc & Hd). split.
  - rewrite Hc. apply NoDup_filter, NoDup_filter, all_pairs_NoDup.
  - intros p Hp. pose proof (Hd p Hp) as Hpd. rewrite Hc in Hp.
    apply filter_In in Hp. destruct Hp as [Hp Hang].
    apply filter_In in Hp. destruct Hp as [Hp _].
    apply all_pairs_In in Hp. apply Qltb_lt in Hang. tauto.
Qed.

(** X6.  The exclusions are honoured: a pair listed at some position of the
    two exclusion arrays is never among the bonds at t=0, and every bond at
    t=0 is closer than [d_crit] in the distance matrix (provided
    [d_crit + 1.0] is not below [d_crit]). *)
Theorem seed_honours_exclusions (ts : Frame) (cand : list (nat * nat))
    (e0 e1 : list Z) :
  d_crit self <= rnd64 (d_crit self + 1) ->
  exclusions self = Some (e0, e1) ->
  seed rnd64 self ts = Ok cand ->
  (forall k i j, nth_error e0 k = Some i -> nth_error e1 k = Some j ->
                 (0 <= i)%Z -> (0 <= j)%Z ->
                 ~ In (Z.to_nat i, Z.to_nat j) cand) /\
  (forall p, In p cand ->
             distance_array ts (pbc self) (fst p) (snd p) < d_crit self).
Proof.
  intros Hex He H. apply seed_inv in H. rewrite He in H.
  destruct H as (excl & Hf & Hc & _).
  assert (Hclose : forall p, In p cand ->
            existsb (pair_eqb p) excl = false /\
            distance_array ts (pbc self) (fst p) (snd p) < d_crit self).
  { intros p Hp. rewrite Hc in Hp. apply filter_In in Hp. destruct Hp as [Hp _].
    apply filter_In in Hp. destruct Hp as [_ Hd]. apply Qltb_lt in Hd.
    unfold excluded_distance in Hd. destruct (existsb _ excl); auto.
    exfalso. apply (Qlt_irrefl (d_crit self)). eapply Qle_lt_trans; eauto. }
  split.
  - intros k i j Hi Hj Hi0 Hj0 Hin.
    destruct (fancy_index_nth _ _ _ _ Hf k Hi Hj) as (i' & j' & E0 & E1 & Hex').
    apply norm_index_nonneg in E0, E1; trivial. subst i' j'.
    destruct (Hclose _ Hin) as [Hn _].
    assert (Ht : existsb (pair_eqb (Z.to_nat i, Z.to_nat j)) excl = true).
    { apply existsb_exists. eexists. split; [exact Hex'|]. now apply pair_eqb_eq. }
    congruence.
  - intros p Hp. now apply Hclose.
Qed.

Lemma seed_raises_index_error (ts : Frame) (e : exn) :
  seed rnd64 self ts = Raise e -> e = IndexError.
Proof.
  unfold seed. intros H.
  destruct (match exclusions self with Some (e0, e1) => _ | None => _ end)
    as [excl|e'] eqn:E; simpl in H.
  - destruct (forallb _ _); [discriminate | now injection H].
  - injection H as <-. destruct (exclusions self) as [[e0 e1]|]; [|discriminate].
    eapply fancy_index_raises; eauto.
Qed.

Lemma seed_returns (ts : Frame) :
  exclusions_in_range self -> (length (h self) <= length (d self))%nat ->
  exists cand, seed rnd64 self ts = Ok cand.
Proof.
  unfold seed, exclusions_in_range. intros Hr Hd.
  assert (Hex : exists excl,
             match exclusions self with
             | Some (e0, e1) => fancy_index (length (h self)) (length (a self)) e0 e1
             | None => Ok []
             end = Ok excl).
  { destruct (exclusions self) as [[e0 e1]|]; [|eauto].
    destruct Hr as (Hl & H0 & H1). now apply fancy_index_in_range. }
  destruct Hex as [excl ->]. simpl.
  destruct (forallb _ _) eqn:Ef; [eauto|]. exfalso.
  assert (Ht : forallb (fun p : nat * nat => (fst p <? length (d self))%nat)
                 (filter (fun p => Qltb (excluded_distance rnd64 self ts excl p)
                                        (d_crit self))
                         (all_pairs (length (h self)) (length (a self)))) = true).
  { apply forallb_forall. intros p Hp. apply filter_In in Hp. destruct Hp as [Hp _].
    apply all_pairs_In in Hp. apply Nat.ltb_lt. lia. }
  congruence.
Qed.

(** X7.  Computing the bonds at t=0 raises nothing but [IndexError], and
    it returns whenever the exclusion arrays address entries of the distance
    matrix and there is a donor for every hydrogen. *)
Theorem seed_returns_or_index_error (ts : Frame) :
  (forall e, seed rnd64 self ts = Raise e -> e = IndexError) /\
  (exclusions_in_range self -> (length (h self) <= length (d self))%nat ->
   exists cand, seed rnd64 self ts = Ok cand).
Proof.
  split; [apply seed_raises_index_error | apply seed_returns].
Qed.

End SeedFacts.

(** ** What the entries of a curve count *)

Lemma bsum_map_filter {A : Type} (f : A -> bool) (l : list A) :
  bsum (map f l) = length (filter f l).
Proof. induction l as [|x l IH]; simpl; trivial. destruct (f x); simpl; lia. Qed.



Section Entries.

Variable rnd32 : Q -> Q.
Variable rnd64 : Q -> Q.
Variable self : HydrogenBondAutoCorrel.

Lemma winners_of_is_winner (ts : Frame) (cand : list (nat * nat)) :
  winners_of self ts cand = map (is_winner self ts) cand.
Proof. reflexivity. Qed.

(** In every mode, the entry written at a frame is the number of winners
    among pairs that were tracked from the start. *)
Lemma loop_entries (frames : list Frame) :
  forall i cand count res res' cand' count' n,
    counters_aligned self cand count ->
    loop rnd32 rnd64 self frames i cand count res = Ok (res', cand', count', n) ->
    forall k, (i + k < n)%nat ->
      exists ts ck,
        nth_error frames k = Some ts /\ subseq ck cand /\
        nth_error res' (i + k) = Some (of_nat rnd32 (bsum (winners_of self ts ck))).
Proof.
  induction frames as [|ts rest IH];
    intros i cand count res res' cand' count' n Hinv H k Hk.
  - simpl in H. injection H as <- <- <- <-. lia.
  - simpl in H.
    destruct (setitem res i _) as [r1|] eqn:Hr1; simpl in H; [|discriminate].
    destruct (@prune_ok rnd64 self (winners_of self ts cand) cand count
                (winners_of_length self ts cand) Hinv)
      as (c1 & k1 & Hp & Hsub & Hinv').
    rewrite Hp in H. simpl in H.
    apply setitem_Ok in Hr1. destruct Hr1 as (_ & _ & Hv & _).
    destruct (length c1 =? 0)%nat.
    + injection H as <- <- <- <-. assert (k = 0)%nat by lia. subst k.
      exists ts, cand. rewrite Nat.add_0_r. repeat split; trivial. apply subseq_refl.
    + destruct k as [|k].
      * pose proof H as Hf. apply loop_frame in Hf. destruct Hf as (_ & _ & Hkeep).
        exists ts, cand. rewrite Nat.add_0_r, Hkeep by lia.
        repeat split; trivial. apply subseq_refl.
      * destruct (IH _ _ _ _ _ _ _ _ Hinv' H k) as (ts' & ck & H1 & H2 & H3); [lia|].
        exists ts', ck. rewrite <- Nat.add_succ_comm. repeat split; trivial.
        eapply subseq_trans; eauto.
Qed.

(** The array of a pass before the division, in every mode. *)
Lemma raw_entries (start stop : Z) (n0 : nat) (res : list float)
    (cand' : list (nat * nat)) (cnt : option (list Q)) (n : nat) :
  tracked_run rnd32 rnd64 self start stop = Ok (n0, (res, cand', cnt, n)) ->
  exists ts0 cand idx,
    seek self start = Ok ts0 /\ seed rnd64 self ts0 = Ok cand /\ n0 = length cand /\
    arange start stop (_skip self) = Ok idx /\ length res = length idx /\
    forall j x, nth_error res j = Some x ->
      x = fzero \/
      exists ts ck, nth_error (traj_slice self idx) j = Some ts /\ subseq ck cand /\
                    x = of_nat rnd32 (bsum (winners_of self ts ck)).
Proof.
  intros Ht. apply tracked_run_inv in Ht.
  destruct Ht as (ts0 & cand & idx & Hs & Hse & Hn & Ha & Hl).
  exists ts0, cand, idx. repeat split; trivial.
  - apply loop_frame in Hl. destruct Hl as (Hlen & _). now rewrite Hlen, repeat_length.
  - intros j x Hx. pose proof Hl as Hf. apply loop_frame in Hf.
    destruct Hf as (Hlen & _ & Hkeep).
    destruct (Nat.lt_ge_cases j n) as [Hj|Hj].
    + right. rewrite Hn in Hl.
      destruct (@loop_entries _ _ _ _ _ _ _ _ _ (initial_count_aligned self cand) Hl j Hj)
        as (ts & ck & H1 & H2 & H3).
      simpl in H3. exists ts, ck. repeat split; trivial. congruence.
    + left. rewrite Hkeep in Hx by lia.
      assert (Hjl : (j < length (repeat fzero (length idx)))%nat).
      { apply nth_error_Some. congruence. }
      rewrite repeat_length in Hjl.
      rewrite (nth_error_repeat fzero) in Hx by trivial. congruence.
Qed.

(** X10.  Whatever the lifetime definition and the forgiveness window, all
    values of the curve of a window with at least one bond at t=0 lie in
    [0, 1]. *)
Theorem curve_in_unit_interval (start stop : Z) (n0 : nat)
    (st : list float * list (nat * nat) * option (list Q) * nat) (r : list float) :
  Rounding rnd32 ->
  tracked_run rnd32 rnd64 self start stop = Ok (n0, st) ->
  n0 <> 0%nat ->
  _single_run rnd32 rnd64 self start stop = Ok r ->
  Forall (fun x => fle (Fin 0) x /\ fle x (Fin 1)) r.
Proof.
  intros R32 Ht Hn0 Hr. destruct st as [[[res cand'] cnt] n].
  pose proof Ht as Hr'. apply single_run_of_tracked in Hr'.
  rewrite Hr' in Hr. injection Hr as <-. clear Hr'.
  apply raw_entries in Ht.
  destruct Ht as (ts0 & cand & idx & _ & _ & Hn & _ & _ & Hres).
  apply Forall_forall. intros y Hy. apply in_map_iff in Hy.
  destruct Hy as (x & <- & Hx). apply In_nth_error in Hx. destruct Hx as [j Hj].
  destruct (Hres j x Hj) as [-> | (ts & ck & _ & Hsub & ->)].
  - apply normalise_unit_interval; trivial; [apply Qle_refl|].
    now apply rnd_nat_nonneg.
  - unfold of_nat, of_Z. apply normalise_unit_interval; trivial.
    + now apply rnd_nat_nonneg.
    + apply rnd_nat_mono; trivial. rewrite Hn.
      rewrite <- (winners_of_length self ts cand).
      etransitivity; [|apply bsum_le_length].
      unfold winners_of. now apply bsum_map_subseq.
Qed.

End Entries.

Section Definitions.

Variable rnd32 : Q -> Q.
Variable rnd64 : Q -> Q.
Hypothesis R32 : Rounding rnd32.
Variable self : HydrogenBondAutoCorrel.




(** [tci] is a [time_cut] that does not open a forgiveness window. *)
Variable tci : option Q.
Hypothesis Htci : truthy tci = false.

(** X13.  Under the intermittent definition without forgiveness window
    the pass goes through every frame of a window with at least one bond at
    t=0, and the entry at offset [j] is the number of bonds of t=0 that
    satisfy the criteria at that frame, divided by the number of bonds at
    t=0. *)
Theorem intermittent_curve_counts_present (start stop : Z) (ts0 : Frame)
    (cand : list (nat * nat)) (idx : list Z) (r : list float) :
  seek self start = Ok ts0 -> seed rnd64 self ts0 = Ok cand -> cand <> [] ->
  arange start stop (_skip self) = Ok idx ->
  _single_run rnd32 rnd64 (as_intermittent self tci) start stop = Ok r ->
  forall j ts, nth_error (traj_slice self idx) j = Some ts ->
    nth_error r j
    = Some (normalise rnd32 (length cand)
              (of_nat rnd32 (length (filter (is_winner self ts) cand)))).
Proof.
  intros Hs Hse Hne Ha Hr j ts Hts.
  assert (Hn0 : length cand <> 0%nat) by (destruct cand; [contradiction | discriminate]).
  apply single_run_inv in Hr. destruct Hr as (n0 & res & cand' & cnt & n & Ht & ->).
  assert (En : n0 = length cand).
  { pose proof Ht as Hi. apply tracked_run_inv in Hi.
    destruct Hi as (ts0' & cand0 & idxx & Hs' & Hse' & Hn & _).
    change (seek (as_intermittent self tci) start) with (seek self start) in Hs'.
    change (seed rnd64 (as_intermittent self tci) ts0')
      with (seed rnd64 self ts0') in Hse'.
    congruence. }
  subst n0.
  pose proof Ht as Hl. apply tracked_run_inv in Hl.
  destruct Hl as (tsx & candx & idx1 & _ & _ & _ & Ha1 & Hl).
  apply loop_frame in Hl. destruct Hl as (Hlen & _).
  change (_skip (as_intermittent self tci)) with (_skip self) in Ha1.
  assert (idx1 = idx) by congruence. subst idx1.
  apply intermittent_results in Ht; trivial.
  destruct Ht as (ts0' & cand0 & idx0 & Hs' & Hse' & _ & Ha' & Hi).
  assert (ts0' = ts0) by congruence. subst ts0'.
  assert (cand0 = cand) by congruence. subst cand0.
  assert (idx0 = idx) by congruence. subst idx0.
  assert (Hjr : (j < length res)%nat).
  { rewrite Hlen, repeat_length. pose proof (traj_slice_length self idx).
    assert (j < length (traj_slice self idx))%nat by (apply nth_error_Some; congruence).
    lia. }
  rewrite nth_error_map, (Hi j Hjr), Hts. simpl.
  now rewrite winners_of_is_winner, bsum_map_filter.
Qed.

(** X11.  Whatever the lifetime definition and the forgiveness window of
    an analysis, its curve for a window with at least one bond at t=0 is,
    index by index, at most the curve of the intermittent definition without
    forgiveness window. *)
Theorem curve_below_intermittent (start stop : Z) (n0 : nat)
    (st : list float * list (nat * nat) * option (list Q) * nat)
    (r ri : list float) :
  tracked_run rnd32 rnd64 self start stop = Ok (n0, st) ->
  n0 <> 0%nat ->
  _single_run rnd32 rnd64 self start stop = Ok r ->
  _single_run rnd32 rnd64 (as_intermittent self tci) start stop = Ok ri ->
  forall j x y, nth_error r j = Some x -> nth_error ri j = Some y -> fle x y.
Proof.
  intros Ht Hn0 Hr Hri. destruct st as [[[res cand'] cnt] n].
  pose proof Ht as Hr'. apply single_run_of_tracked in Hr'.
  rewrite Hr' in Hr. injection Hr as <-. clear Hr'.
  apply raw_entries in Ht.
  destruct Ht as (ts0 & cand & idx & Hs & Hse & Hn & Ha & _ & Hres).
  assert (Hne : cand <> []) by (intros ->; now apply Hn0).
  apply single_run_inv in Hri.
  destruct Hri as (n0i & resi & candi & cnti & ni & Hti & Eri).
  assert (En : n0i = n0).
  { pose proof Hti as Hi. apply tracked_run_inv in Hi.
    destruct Hi as (ts0' & cand0 & idxx & Hs' & Hse' & Hn' & _).
    change (seek (as_intermittent self tci) start) with (seek self start) in Hs'.
    change (seed rnd64 (as_intermittent self tci) ts0')
      with (seed rnd64 self ts0') in Hse'.
    congruence. }
  subst n0i.
  apply intermittent_results in Hti; trivial.
  destruct Hti as (ts0' & cand0 & idx0 & Hs' & Hse' & _ & Ha' & Hi).
  assert (cand0 = cand) by congruence. subst cand0.
  assert (idx0 = idx) by congruence. subst idx0.
  intros j x y Hx Hy. rewrite nth_error_map in Hx.
  destruct (nth_error res j) as [v|] eqn:Ev; [|discriminate]. injection Hx as <-.
  rewrite Eri, nth_error_map in Hy.
  destruct (nth_error resi j) as [vi|] eqn:Evi; [|discriminate]. injection Hy as <-.
  assert (Hji : (j < length resi)%nat) by (apply nth_error_Some; congruence).
  rewrite (Hi j Hji) in Evi. injection Evi as <-.
  destruct (Hres j v Ev) as [-> | (ts & ck & Hts & Hsub & ->)].
  - destruct (nth_error (traj_slice self idx) j) as [ts|].
    + apply normalise_le; trivial. now apply rnd_nat_nonneg.
    + apply normalise_le; trivial. apply Qle_refl.
  - rewrite Hts. apply normalise_le; trivial. apply rnd_nat_mono; trivial.
    unfold winners_of. now apply bsum_map_subseq.
Qed.

End Definitions.

(** ** The aggregate over the windows *)

Lemma py_int_nonneg (q : Q) : 0 <= q -> (0 <= py_int q)%Z.
Proof.
  unfold py_int, Qle. simpl. intros H. apply Z.quot_pos; lia.
Qed.

(** For a positive stride a shorter window has a shorter curve. *)
Lemma arange_len_mono (s e e0 skip : Z) :
  (0 < skip)%Z -> (e - s <= e0)%Z ->
  (arange_len s e skip <= arange_len 0 e0 skip)%nat.
Proof.
  intros Hk Hle. unfold arange_len.
  assert (H : ((0 - e0) / skip <= (s - e) / skip)%Z) by (apply Z.div_le_mono; lia).
  lia.
Qed.

Lemma in_combine_map {A B : Type} (f : A -> B) (l : list A) (x : A) (y : B) :
  In (x, y) (combine l (map f l)) -> In x l /\ y = f x.
Proof.
  induction l as [|z l IH]; simpl; [contradiction|].
  intros [E | Hin].
  - injection E as -> <-. auto.
  - destruct (IH Hin). auto.
Qed.

Section Aggregate.

Variable rnd32 : Q -> Q.
Variable rnd64 : Q -> Q.

Lemma add_prefix_length (m r : list float) :
  length (add_prefix rnd32 m r) = length m.
Proof.
  revert r. induction m as [|x m IH]; intros [|y r]; simpl; auto.
Qed.

Lemma run_loop_total (self : HydrogenBondAutoCorrel) (L : nat)
    (windows : list (Z * Z)) :
  (forall s e, In (s, e) windows ->
     exists r, _single_run rnd32 rnd64 self s e = Ok r /\ (length r <= L)%nat) ->
  forall master counter,
    length master = L -> length counter = L ->
    exists m c, run_loop rnd32 rnd64 self windows master counter = Ok (m, c) /\
                length m = L /\ length c = L.
Proof.
  induction windows as [|[s e] rest IH]; intros Hw master counter Hm Hc; simpl.
  - eauto.
  - destruct (Hw s e (or_introl eq_refl)) as (r & -> & Hr). simpl.
    assert (E : (length r <=? length master)%nat = true) by (apply Nat.leb_le; lia).
    rewrite E. apply IH.
    + intros s' e' Hin. apply Hw. now right.
    + now rewrite add_prefix_length.
    + now rewrite add_prefix_length.
Qed.

(** A pass over a window that starts inside the trajectory returns, with
    a curve of the nominal length, as soon as the bonds at t=0 can be
    computed. *)
Lemma single_run_returns (self : HydrogenBondAutoCorrel) (s e : Z) :
  (0 <= s < Z.of_nat (length (trajectory (u self))))%Z ->
  exclusions_in_range self -> (length (h self) <= length (d self))%nat ->
  _skip self <> 0%Z ->
  exists r, _single_run rnd32 rnd64 self s e = Ok r /\
            length r = arange_len s e (_skip self).
Proof.
  intros Hs Hex Hd Hk.
  assert (Hseek : exists ts, seek self s = Ok ts).
  { unfold seek. destruct (s <? 0)%Z eqn:E; [apply Z.ltb_lt in E; lia|].
    destruct (nth_error (trajectory (u self)) (Z.to_nat s)) as [ts|] eqn:En; [eauto|].
    apply nth_error_None in En. lia. }
  destruct Hseek as [ts Hts].
  destruct (@seed_returns rnd64 self ts Hex Hd) as [cand Hc].
  destruct (@tracked_run_total rnd32 rnd64 self s e ts cand Hts Hc Hk)
    as [[[[res cand'] cnt] n] Ht].
  apply single_run_of_tracked in Ht. eexists. split; [exact Ht|].
  now apply single_run_length in Ht.
Qed.

(** [run] touches nothing but [results] and [time]. *)
Lemma run_inv (self self' : HydrogenBondAutoCorrel) (force : bool) :
  run rnd32 rnd64 self force = Ok self' ->
  (self' = self /\ is_not_None (results (solution self)) = true /\ force = false) \/
  exists r t,
    length t = length r /\
    self' = set_solution self
              {| results := Some r; time := Some t; fit := fit (solution self);
                 tau := tau (solution self); estimate := estimate (solution self) |}.
Proof.
  unfold run.
  destruct (is_not_None (results (solution self)) && negb force) eqn:E.
  - intros H. injection H as <-. left. apply andb_true_iff in E.
    destruct E as [E1 E2]. apply negb_true_iff in E2. auto.
  - destruct (getitem (_starts self) 0) as [s0|]; simpl; [|discriminate].
    destruct (getitem (_stops self) 0) as [e0|]; simpl; [|discriminate].
    destruct (arange s0 e0 (_skip self)) as [idx|]; simpl; [|discriminate].
    destruct (run_loop _ _ _ _ _ _) as [[m c]|]; simpl; [|discriminate].
    intros H. injection H as <-. right. eexists _, _. split; [|reflexivity].
    now rewrite length_map, length_seq.
Qed.

(** X9.  A call of [run] that returns changes nothing of the analysis
    but [solution['results']] and [solution['time']]: the configuration, the
    planned windows and the entries [fit], [tau] and [estimate] left by an
    earlier [solve] are as before, also when [force] is set. *)
Theorem run_keeps_configuration_and_fit (self self' : HydrogenBondAutoCorrel)
    (force : bool) :
  run rnd32 rnd64 self force = Ok self' ->
  self' = set_solution self
            {| results := results (solution self'); time := time (solution self');
               fit := fit (solution self); tau := tau (solution self);
               estimate := estimate (solution self) |}.
Proof.
  intros H. apply run_inv in H. destruct H as [(-> & _ & _) | (r & t & _ & ->)].
  - destruct self as [? ? ? ? ? ? ? ? ? ? ? ? ? ? ? ? []]. reflexivity.
  - reflexivity.
Qed.

(** X14.  [save_results] raises [ValueError] on an analysis that has not
    been run, and after any call of [run] that returns it hands numpy a time
    axis and a curve of the same length. *)
Theorem save_results_needs_run (self : HydrogenBondAutoCorrel)
    (filename : String.string) :
  results (solution self) = None ->
  (exists msg, save_results self filename = Raise (ValueError msg)) /\
  forall force self',
    run rnd32 rnd64 self force = Ok self' ->
    exists t r, save_results self' filename = Ok (filename, Some t, r) /\
                length t = length r.
Proof.
  intros Hn. split.
  - unfold save_results. rewrite Hn. eauto.
  - intros force self' H. apply run_inv in H.
    destruct H as [(_ & Hp & _) | (r & t & Hl & ->)].
    + rewrite Hn in Hp. discriminate.
    + exists t, r. split; trivial.
Qed.

Variable deg2rad : Q -> Q.

(** X8.  An analysis constructed with at least one run and one sample, a
    non-negative sample time, a positive time step, exclusions that address
    entries of the distance matrix and a donor for every hydrogen can be
    run: [run] does not raise, and it leaves a curve and a time axis of one
    length, the nominal length of the first window. *)
Theorem run_returns (universe : Universe) (hydrogens acceptors donors : AtomGroup)
    (bt : PyStr) (excl : option (list Z * list Z))
    (angle_crit dist_crit sample_t : Q) (tc : option Q) (nr ns : Z) (box : bool)
    (self : HydrogenBondAutoCorrel) (force : bool) :
  Rounding rnd64 ->
  __init__ rnd64 deg2rad universe hydrogens acceptors donors bt excl
           angle_crit dist_crit sample_t tc nr ns box = Ok self ->
  (1 <= nr)%Z -> (1 <= ns)%Z -> 0 <= sample_t -> 0 < dt universe ->
  exclusions_in_range self -> (length hydrogens <= length donors)%nat ->
  exists self' r t stop0,
    run rnd32 rnd64 self force = Ok self' /\
    results (solution self') = Some r /\ time (solution self') = Some t /\
    length t = length r /\
    nth_error (_stops self) 0 = Some stop0 /\
    length r = arange_len 0 stop0 (_skip self).
Proof.
  intros R64 Hinit Hnr Hns Hst Hdt Hex Hd.
  pose proof (init_skip _ _ _ _ _ _ _ _ _ _ _ _ _ _ _ Hinit) as Hskip.
  apply init_inv in Hinit.
  destruct Hinit as (Htraj & _ & _ & starts & stops & skip & Hsl & ->).
  simpl in Hskip, Hex, Hd |- *.
  apply slice_traj_inv in Hsl. simpl in Hsl.
  set (F := Z.of_nat (length (trajectory universe))) in *.
  set (req := py_int (rnd64 (sample_t / dt universe))) in *.
  set (numruns := if (F <? nr)%Z then F else nr) in *.
  destruct Hsl as (_ & _ & _ & Hstarts & Hstops & Hsk).
  assert (HF : (1 <= F)%Z).
  { unfold F. destruct (trajectory universe); [contradiction | simpl length; lia]. }
  assert (Hnum : (1 <= numruns <= F)%Z).
  { unfold numruns. destruct (F <? nr)%Z eqn:E; [lia|]. apply Z.ltb_ge in E. lia. }
  assert (Hstep : (1 <= F / numruns <= F)%Z).
  { split; [apply Z.div_le_lower_bound; lia|].
    apply Z.div_le_upper_bound; nia. }
  assert (Hreq : (0 <= req)%Z).
  { apply py_int_nonneg, rnd_nonneg; trivial.
    apply Qle_shift_div_l; trivial. now rewrite Qmult_0_l. }
  assert (Hpos : (0 < skip)%Z).
  { rewrite Hsk. assert (0 <= req / ns)%Z by (apply Z.div_pos; lia).
    destruct (req / ns =? 0)%Z eqn:E; [lia|]. apply Z.eqb_neq in E. lia. }
  assert (Hlen1 : (1 <= arange_len 0 F (F / numruns))%nat).
  { unfold arange_len.
    assert (((0 - F) / (F / numruns) <= -1)%Z) by (apply Z.div_le_upper_bound; lia).
    lia. }
  set (stop0 := clip (0 + req) 0 F).
  assert (Hs0 : nth_error starts 0 = Some 0%Z).
  { rewrite Hstarts. destruct (arange_len 0 F (F / numruns)); [lia | reflexivity]. }
  assert (He0 : nth_error stops 0 = Some stop0).
  { rewrite Hstops. now rewrite nth_error_map, Hs0. }
  set (self := {| u := universe; h := hydrogens; a := acceptors; d := donors;
                  exclusions := excl; bond_type := bt;
                  a_crit := deg2rad angle_crit; d_crit := dist_crit; pbc := box;
                  sample_time := sample_t; nruns := nr; nsamples := ns;
                  _starts := starts; _stops := stops; _skip := skip;
                  time_cut := tc;
                  solution := {| results := None; time := None; fit := None;
                                 tau := None; estimate := None |} |}) in *.
  set (L := arange_len 0 stop0 skip).
  assert (Hwin : forall s e, In (s, e) (combine starts stops) ->
            exists r, _single_run rnd32 rnd64 self s e = Ok r /\ (length r <= L)%nat).
  { intros s e Hin. rewrite Hstops in Hin. apply in_combine_map in Hin.
    destruct Hin as [Hin ->].
    assert (Hs : (0 <= s < F)%Z).
    { rewrite Hstarts in Hin. apply in_map_iff in Hin.
      destruct Hin as (k & <- & Hk). apply in_seq in Hk.
      apply arange_entries; lia. }
    destruct (@single_run_returns self s (clip (s + req) 0 F) Hs Hex Hd Hskip)
      as (r & Hr & Hl).
    exists r. split; trivial. rewrite Hl. apply arange_len_mono; trivial.
    unfold stop0, clip. lia. }
  destruct (arange_ok 0 stop0 Hskip) as (idx & Hidx & Hli).
  destruct (@run_loop_total self L (combine starts stops) Hwin
              (repeat fzero (length idx)) (repeat fzero (length idx)))
    as (m & c & Hrl & Hm & Hc); try (rewrite repeat_length; exact Hli).
  eexists _, _, _, stop0. unfold run.
  replace (is_not_None (results (solution self)) && negb force) with false
    by reflexivity.
  unfold getitem.
  change (_starts self) with starts. change (_stops self) with stops.
  change (_skip self) with skip.
  rewrite Hs0, He0. cbn [bind]. rewrite Hidx. cbn [bind]. rewrite Hrl. cbn [bind].
  split; [reflexivity|]. split; [reflexivity|].
  split; [reflexivity|]. split; [now rewrite length_map, length_seq|].
  split; [exact He0|].
  rewrite map2_length; [exact Hm | now rewrite Hm, Hc].
Qed.

End Aggregate.

(** ** Evaluation of the further properties *)

Lemma init_windows_inside_trajectory_witness :
  length (_stops (built decaying "continuous" None))
  = length (_starts (built decaying "continuous" None)) /\
  Forall (fun s => (0 <= s < 4)%Z) (_starts (built decaying "continuous" None)) /\
  Forall (fun e => (0 <= e <= 4)%Z) (_stops (built decaying "continuous" None)) /\
  _skip (built decaying "continuous" None) <> 0%Z.
Proof.
  apply (@init_windows_inside_trajectory exact_rounding deg2rad_approx
           (universe_of decaying) [0; 1]%nat [2; 3]%nat [4; 5]%nat (literal "continuous") None
           130 3 4 None 1 4 true (built decaying "continuous" None)).
  vm_compute. reflexivity.
Defined.

Lemma slice_traj_clamps_nruns_witness :
  [0; 1; 2; 3; 4; 5; 6; 7; 8; 9]%Z = map Z.of_nat (seq 0 10).
Proof.
  apply (@slice_traj_clamps_nruns exact_rounding ten_frames 20 5 5
           [0; 1; 2; 3; 4; 5; 6; 7; 8; 9]%Z [5; 6; 7; 8; 9; 10; 10; 10; 10; 10]%Z 1).
  - vm_compute. reflexivity.
  - vm_compute. reflexivity.
Defined.

Lemma slice_traj_stride_fallback_witness :
  exists starts stops skip,
    _slice_traj exact_rounding ten_frames 2 50 5 = Ok (starts, stops, skip) /\
    skip = 1%Z.
Proof.
  exists [0; 5]%Z, [5; 10]%Z, 1%Z. split; [vm_compute; reflexivity|].
  apply (@slice_traj_stride_fallback exact_rounding ten_frames 2 50 5
           [0; 5]%Z [5; 10]%Z 1).
  - vm_compute. split; [discriminate | reflexivity].
  - vm_compute. reflexivity.
Defined.

Lemma init_zero_runs_or_samples_witness :
  __init__ exact_rounding deg2rad_approx (universe_of decaying)
           [0; 1]%nat [2; 3]%nat [4; 5]%nat (literal "continuous") None 130 3 4 None 0 4 true
  = Raise ZeroDivisionError.
Proof.
  apply init_zero_runs_or_samples.
  - reflexivity.
  - discriminate.
  - reflexivity.
  - exact I.
  - now left.
  - now left.
Defined.

Lemma seed_pairs_distinct_and_indexed_witness :
  NoDup [(0, 0); (1, 1)]%nat /\
  forall p, In p [(0, 0); (1, 1)]%nat ->
    (fst p < 2)%nat /\ (snd p < 2)%nat /\ (fst p < 2)%nat /\
    a_crit (built decaying "continuous" None) < 3.
Proof.
  apply (@seed_pairs_distinct_and_indexed exact_rounding
           (built decaying "continuous" None) (frame_with [(0, 0); (1, 1)]%nat)
           [(0, 0); (1, 1)]%nat).
  vm_compute. reflexivity.
Defined.

Lemma seed_honours_exclusions_witness :
  seed exact_rounding
       (set_exclusions (built decaying "continuous" None) (Some ([0%Z], [0%Z])))
       (frame_with [(0, 0); (1, 1)]%nat) = Ok [(1, 1)%nat] /\
  ~ In (Z.to_nat 0, Z.to_nat 0) [(1, 1)%nat].
Proof.
  split; [vm_compute; reflexivity|].
  apply (proj1 (@seed_honours_exclusions exact_rounding
                  (set_exclusions (built decaying "continuous" None)
                                  (Some ([0%Z], [0%Z])))
                  (frame_with [(0, 0); (1, 1)]%nat) [(1, 1)%nat] [0%Z] [0%Z]
                  ltac:(vm_compute; discriminate) eq_refl
                  ltac:(vm_compute; reflexivity)) 0%nat 0%Z 0%Z);
    try reflexivity; lia.
Defined.

Lemma seed_returns_or_index_error_witness :
  exists cand,
    seed exact_rounding (built decaying "continuous" None)
         (frame_with [(0, 0); (1, 1)]%nat) = Ok cand.
Proof.
  apply (proj2 (seed_returns_or_index_error exact_rounding
                  (built decaying "continuous" None)
                  (frame_with [(0, 0); (1, 1)]%nat))).
  - exact I.
  - simpl. lia.
Defined.

Lemma run_returns_witness :
  exists self' r t stop0,
    run exact_rounding exact_rounding (built decaying "continuous" None) false
    = Ok self' /\
    results (solution self') = Some r /\ time (solution self') = Some t /\
    length t = length r /\
    nth_error (_stops (built decaying "continuous" None)) 0 = Some stop0 /\
    length r = arange_len 0 stop0 (_skip (built decaying "continuous" None)).
Proof.
  apply (@run_returns exact_rounding exact_rounding deg2rad_approx
           (universe_of decaying) [0; 1]%nat [2; 3]%nat [4; 5]%nat (literal "continuous") None
           130 3 4 None 1 4 true (built decaying "continuous" None) false
           exact_rounding_ok).
  - vm_compute. reflexivity.
  - lia.
  - lia.
  - discriminate.
  - reflexivity.
  - exact I.
  - simpl. lia.
Defined.

Lemma run_keeps_configuration_and_fit_witness :
  exists self',
    run exact_rounding exact_rounding (built decaying "continuous" None) true
    = Ok self' /\
    self' = set_solution (built decaying "continuous" None)
              {| results := results (solution self'); time := time (solution self');
                 fit := None; tau := None; estimate := None |}.
Proof.
  eexists. split; [vm_compute; reflexivity|].
  apply (@run_keeps_configuration_and_fit exact_rounding exact_rounding
           (built decaying "continuous" None) _ true).
  vm_compute. reflexivity.
Defined.

Lemma save_results_needs_run_witness :
  (exists msg,
      save_results (built decaying "continuous" None) "hbond_autocorrel"
      = Raise (ValueError msg)) /\
  forall force self',
    run exact_rounding exact_rounding (built decaying "continuous" None) force
    = Ok self' ->
    exists t r,
      save_results self' "hbond_autocorrel" = Ok ("hbond_autocorrel"%string, Some t, r) /\
      length t = length r.
Proof.
  apply (@save_results_needs_run exact_rounding exact_rounding
           (built decaying "continuous" None) "hbond_autocorrel").
  reflexivity.
Defined.

Lemma curve_in_unit_interval_witness :
  Forall (fun x => fle (Fin 0) x /\ fle x (Fin 1))
         [Fin 1; Fin (1 # 2); Fin 0; Fin (1 # 2)].
Proof.
  apply (@curve_in_unit_interval exact_rounding exact_rounding
           (built decaying "intermittent" (Some 2)) 0 4 2
           ([Fin 2; Fin 1; Fin 0; Fin 1], [(0, 0)]%nat, Some [0], 4%nat)
           [Fin 1; Fin (1 # 2); Fin 0; Fin (1 # 2)] exact_rounding_ok).
  - vm_compute. reflexivity.
  - discriminate.
  - vm_compute. reflexivity.
Defined.

Lemma curve_below_intermittent_witness :
  exists r ri,
    _single_run exact_rounding exact_rounding
                (built decaying "intermittent" (Some 1)) 0 4 = Ok r /\
    _single_run exact_rounding exact_rounding
                (built decaying "intermittent" None) 0 4 = Ok ri /\
    forall j x y, nth_error r j = Some x -> nth_error ri j = Some y -> fle x y.
Proof.
  exists [Fin 1; Fin (1 # 2); Fin 0; Fin 0], [Fin 1; Fin (1 # 2); Fin 0; Fin (1 # 2)].
  split; [vm_compute; reflexivity|]. split; [vm_compute; reflexivity|].
  apply (@curve_below_intermittent exact_rounding exact_rounding exact_rounding_ok
           (built decaying "intermittent" (Some 1)) None eq_refl 0 4 2
           ([Fin 2; Fin 1; Fin 0; Fin 0], [], Some [], 3%nat)).
  - vm_compute. reflexivity.
  - discriminate.
  - vm_compute. reflexivity.
  - vm_compute. reflexivity.
Defined.


Lemma intermittent_curve_counts_present_witness :
  nth_error [Fin 1; Fin (1 # 2); Fin 0; Fin (1 # 2)] 3
  = Some (normalise exact_rounding 2
            (of_nat exact_rounding
               (length (filter (is_winner (built decaying "continuous" None)
                                          (frame_with [(0, 0)]%nat))
                               [(0, 0); (1, 1)]%nat)))).
Proof.
  apply (@intermittent_curve_counts_present exact_rounding exact_rounding
           (built decaying "continuous" None) None eq_refl 0 4
           (frame_with [(0, 0); (1, 1)]%nat) [(0, 0); (1, 1)]%nat [0; 1; 2; 3]%Z
           [Fin 1; Fin (1 # 2); Fin 0; Fin (1 # 2)]).
  - vm_compute. reflexivity.
  - vm_compute. reflexivity.
  - discriminate.
  - vm_compute. reflexivity.
  - vm_compute. reflexivity.
  - reflexivity.
Defined.

(** ** The forgiveness window against the continuous definition *)

Section Sandwich.

Variable rnd32 : Q -> Q.
Variable rnd64 : Q -> Q.
Hypothesis R32 : Rounding rnd32.
Variable self : HydrogenBondAutoCorrel.
Variable tc : Q.
Hypothesis Htc : 0 < tc.







End Sandwich.

(** ** A negative number of runs *)

Section NegativeRuns.

Variable rnd32 : Q -> Q.
Variable rnd64 : Q -> Q.
Variable deg2rad : Q -> Q.

(** X16.  A negative [nruns] is not rejected by the construction: the
    analysis is built without any window, and [run] then raises
    [IndexError] on [self._starts[0]]. *)
Theorem negative_nruns_fails_in_run (universe : Universe)
    (hydrogens acceptors donors : AtomGroup)
    (bt : PyStr) (excl : option (list Z * list Z))
    (angle_crit dist_crit sample_t : Q) (tc : option Q) (nr ns : Z) (box : bool)
    (self : HydrogenBondAutoCorrel) (force : bool) :
  (nr < 0)%Z ->
  __init__ rnd64 deg2rad universe hydrogens acceptors donors bt excl
           angle_crit dist_crit sample_t tc nr ns box = Ok self ->
  _starts self = [] /\ _stops self = [] /\
  run rnd32 rnd64 self force = Raise IndexError.
Proof.
  intros Hnr H. apply init_inv in H.
  destruct H as (Htraj & _ & _ & starts & stops & skip & Hsl & ->).
  apply slice_traj_inv in Hsl. simpl in Hsl.
  set (F := Z.of_nat (length (trajectory universe))) in *.
  assert (HF : (1 <= F)%Z).
  { unfold F. destruct (trajectory universe); [contradiction | simpl length; lia]. }
  destruct (F <? nr)%Z eqn:E; [apply Z.ltb_lt in E; lia|].
  destruct Hsl as (_ & _ & Hstep & Hstarts & Hstops & _).
  assert (Hlen : arange_len 0 F (F / nr) = 0%nat).
  { unfold arange_len.
    assert (0 <= (0 - F) / (F / nr))%Z; [|lia].
    assert (Hneg : (F / nr < 0)%Z).
    { assert (F / nr <= 0)%Z; [|lia].
      rewrite <- (Z.div_opp_opp F nr) by lia.
      apply Z.div_le_upper_bound; lia. }
    rewrite <- (Z.div_opp_opp (0 - F) (F / nr)) by lia.
    apply Z.div_pos; lia. }
  rewrite Hlen in Hstarts. simpl in Hstarts. subst starts. simpl in Hstops. subst stops.
  split; [reflexivity|]. split; reflexivity.
Qed.

End NegativeRuns.

(** ** A bond type that is equal to a literal without being it *)

Section Identity.

Variable rnd32 : Q -> Q.
Variable rnd64 : Q -> Q.
Variable deg2rad : Q -> Q.

(** Neither identity test of the loop body holds: nothing is pruned. *)
Lemma prune_not_literal (self : HydrogenBondAutoCorrel) (winners : list bool)
    (cand : list (nat * nat)) (count : option (list Q)) :
  interned (bond_type self) = false ->
  prune rnd64 self winners cand count = Ok (cand, count).
Proof.
  intros Hid. unfold prune, is_literal. rewrite Hid. reflexivity.
Qed.

Lemma loop_not_literal (self : HydrogenBondAutoCorrel) (frames : list Frame) :
  interned (bond_type self) = false ->
  forall i cand count res,
    loop rnd32 rnd64 self frames i cand count res
    = match loop rnd32 rnd64 (as_intermittent self None) frames i cand None res with
      | Ok (r, c, _, n) => Ok (r, c, count, n)
      | Raise e => Raise e
      end.
Proof.
  intros Hid. induction frames as [|ts rest IH]; intros i cand count res.
  - reflexivity.
  - cbn [loop].
    change (winners_of (as_intermittent self None) ts cand)
      with (winners_of self ts cand).
    destruct (setitem res i _) as [r1|]; cbn [bind]; trivial.
    rewrite prune_not_literal by exact Hid.
    change (prune rnd64 (as_intermittent self None) (winners_of self ts cand) cand None)
      with (@Ok (list (nat * nat) * option (list Q)) (cand, None)).
    cbn [bind]. destruct (length cand =? 0)%nat; trivial.
Qed.

Lemma tracked_run_not_literal (self : HydrogenBondAutoCorrel) (start stop : Z) :
  interned (bond_type self) = false ->
  tracked_run rnd32 rnd64 self start stop
  = match tracked_run rnd32 rnd64 (as_intermittent self None) start stop with
    | Ok (n0, (r, c, _, n)) => Ok (n0, (r, c, initial_count self n0, n))
    | Raise e => Raise e
    end.
Proof.
  intros Hid. unfold tracked_run.
  change (seek (as_intermittent self None) start) with (seek self start).
  destruct (seek self start) as [ts0|]; cbn [bind]; trivial.
  change (seed rnd64 (as_intermittent self None) ts0) with (seed rnd64 self ts0).
  destruct (seed rnd64 self ts0) as [cand|]; cbn [bind]; trivial.
  change (_skip (as_intermittent self None)) with (_skip self).
  destruct (arange start stop (_skip self)) as [idx|]; cbn [bind]; trivial.
  change (traj_slice (as_intermittent self None) idx) with (traj_slice self idx).
  rewrite loop_not_literal by exact Hid.
  change (truthy (time_cut (as_intermittent self None))) with false.
  cbv iota.
  destruct (loop rnd32 rnd64 (as_intermittent self None) (traj_slice self idx) 0 cand
                 None (repeat fzero (length idx))) as [[[[r c] k] n]|]; reflexivity.
Qed.

(** X18.  The construction compares [bond_type] with the two names by
    [==], the loop by [is].  A string that reads ['continuous'] without
    being the object of the literal is therefore accepted exactly as the
    literal is, and the analysis it configures is not the continuous one:
    in every pass nothing is removed from the tracked pairs, whatever
    [time_cut] is, and the curve is the one of the intermittent definition
    without forgiveness window. *)
Theorem computed_continuous_runs_intermittent (universe : Universe)
    (hydrogens acceptors donors : AtomGroup) (excl : option (list Z * list Z))
    (angle_crit dist_crit sample_t : Q) (tc : option Q) (nr ns : Z) (box : bool)
    (self : HydrogenBondAutoCorrel) :
  __init__ rnd64 deg2rad universe hydrogens acceptors donors (literal "continuous")
           excl angle_crit dist_crit sample_t tc nr ns box = Ok self ->
  __init__ rnd64 deg2rad universe hydrogens acceptors donors (computed "continuous")
           excl angle_crit dist_crit sample_t tc nr ns box
  = Ok (set_bond_type self (computed "continuous")) /\
  forall start stop,
    _single_run rnd32 rnd64 (set_bond_type self (computed "continuous")) start stop
    = _single_run rnd32 rnd64 (as_intermittent self None) start stop /\
    forall n0 res cand cnt n,
      tracked_run rnd32 rnd64 (set_bond_type self (computed "continuous")) start stop
      = Ok (n0, (res, cand, cnt, n)) ->
      exists ts0, seek self start = Ok ts0 /\ seed rnd64 self ts0 = Ok cand.
Proof.
  intros H. split.
  - revert H. unfold __init__. cbn [chars literal computed].
    destruct (negb (sliceable universe && _)); [discriminate|].
    destruct (length_check_fails _ _ _); [discriminate|].
    destruct (match excl with Some (e0, e1) => _ | None => false end); [discriminate|].
    destruct (negb _); [discriminate|].
    destruct (_slice_traj _ _ _ _ _) as [[[starts stops] skip]|]; simpl; [|discriminate].
    intros H. injection H as <-. reflexivity.
  - intros start stop.
    pose proof (@tracked_run_not_literal (set_bond_type self (computed "continuous"))
                  start stop eq_refl) as Ht.
    change (as_intermittent (set_bond_type self (computed "continuous")) None)
      with (as_intermittent self None) in Ht.
    split.
    + unfold _single_run. rewrite Ht.
      destruct (tracked_run rnd32 rnd64 (as_intermittent self None) start stop)
        as [[n0 [[[r c] k] n]]|]; reflexivity.
    + intros n0 res cand cnt n Hr. rewrite Ht in Hr.
      destruct (tracked_run rnd32 rnd64 (as_intermittent self None) start stop)
        as [[m0 [[[r c] k] m]]|] eqn:Hi; [|discriminate].
      injection Hr as <- <- <- _ <-.
      apply tracked_run_inv in Hi.
      destruct Hi as (ts0 & cand0 & idx & Hs & Hse & _ & _ & Hl).
      eapply loop_intermittent_state in Hl; [|reflexivity|reflexivity].
      destruct Hl as [-> _]. exists ts0. split; [exact Hs | exact Hse].
Qed.

End Identity.


Lemma negative_nruns_fails_in_run_witness :
  exists self,
    __init__ exact_rounding deg2rad_approx (universe_of decaying)
             [0; 1]%nat [2; 3]%nat [4; 5]%nat (literal "continuous") None 130 3 4 None (-2) 4 true
    = Ok self /\
    _starts self = [] /\ _stops self = [] /\
    run exact_rounding exact_rounding self false = Raise IndexError.
Proof.
  eexists. split; [vm_compute; reflexivity|].
  apply (@negative_nruns_fails_in_run exact_rounding exact_rounding deg2rad_approx
           (universe_of decaying) [0; 1]%nat [2; 3]%nat [4; 5]%nat (literal "continuous") None
           130 3 4 None (-2) 4 true).
  - reflexivity.
  - vm_compute. reflexivity.
Defined.

(** The curve of the pass over [decaying] when [bond_type] reads
    ['continuous'] without being the literal: it goes up again at index 3,
    where the continuous curve stays at 0. *)
Example computed_continuous_curve :
  _single_run exact_rounding exact_rounding
              (set_bond_type (built decaying "continuous" None) (computed "continuous"))
              0 4
  = Ok [Fin 1; Fin (1 # 2); Fin 0; Fin (1 # 2)].
Proof. vm_compute. reflexivity. Qed.

Lemma computed_continuous_runs_intermittent_witness :
  __init__ exact_rounding deg2rad_approx (universe_of decaying)
           [0; 1]%nat [2; 3]%nat [4; 5]%nat (computed "continuous")
           None 130 3 4 None 1 4 true
  = Ok (set_bond_type (built decaying "continuous" None) (computed "continuous")) /\
  forall start stop,
    _single_run exact_rounding exact_rounding
                (set_bond_type (built decaying "continuous" None) (computed "continuous"))
                start stop
    = _single_run exact_rounding exact_rounding
                  (as_intermittent (built decaying "continuous" None) None) start stop /\
    forall n0 res cand cnt n,
      tracked_run exact_rounding exact_rounding
                  (set_bond_type (built decaying "continuous" None)
                                 (computed "continuous")) start stop
      = Ok (n0, (res, cand, cnt, n)) ->
      exists ts0,
        seek (built decaying "continuous" None) start = Ok ts0 /\
        seed exact_rounding (built decaying "continuous" None) ts0 = Ok cand.
Proof.
  apply (@computed_continuous_runs_intermittent exact_rounding exact_rounding
           deg2rad_approx (universe_of decaying) [0; 1]%nat [2; 3]%nat [4; 5]%nat
           None 130 3 4 None 1 4 true (built decaying "continuous" None)).
  vm_compute. reflexivity.
Defined.
